(** * file-tree-scanner: directory scanner and tree renderer

    A shallow embedding of [internal/scanner] (ScanDirectory, scanNode,
    isProblematicPath, filterHiddenEntries, sortEntries), of
    [internal/renderer] (RenderTree, renderNode) and of [internal/config],
    followed by the properties of the scan result and of the rendered text.

    Conventions of the embedding:
    - a Go [string] is a [string] of bytes; a Go [int] is a [Z], without
      wrap-around: a depth stays below 52 and a count below the number of
      nodes built, and the configured depth is only compared;
    - the filesystem is a pair of functions ([os.Stat], [os.ReadDir]);
    - the context is an oracle answering each poll of [ctx.Done()];
    - [node.Children = append(...)] and the in-place growth of the child
      during the recursive call become an updated node that is returned;
    - [log.Printf] and [time.Sleep] have no effect on the result and are
      left out; the [Parent] back-pointer is never read and is left out. *)

From Stdlib Require Import ZArith List String Ascii Bool Lia Sorted Permutation.
From Stdlib Require DecimalString.
Import ListNotations.
Set Warnings "-register-all".
Local Open Scope string_scope.
Local Open Scope list_scope.
Local Open Scope Z_scope.

(** Go's [+] on strings. *)
Infix "+++" := String.append (right associativity, at level 60).

(** ** Package strings *)
Module Strings.

(** [strings.HasPrefix(s, prefix)]. *)
Definition HasPrefix (s prefix : string) : bool := String.prefix prefix s.

(** [strings.Contains(s, substr)]: [substr] starts at some offset of [s]. *)
Fixpoint Contains (s substr : string) : bool :=
  match s with
  | EmptyString => HasPrefix EmptyString substr
  | String _ s' => HasPrefix s substr || Contains s' substr
  end.

(** [strings.Split(s, "/")]. *)
Fixpoint SplitSlash (s : string) : list string :=
  match s with
  | EmptyString => [EmptyString]
  | String c s' =>
      if Ascii.eqb c "/"%char then EmptyString :: SplitSlash s'
      else match SplitSlash s' with
           | [] => [String c EmptyString]
           | e :: es => String c e :: es
           end
  end.

(** [strings.Repeat(s, n)]. *)
Fixpoint Repeat (s : string) (n : nat) : string :=
  match n with
  | O => EmptyString
  | S n' => s +++ Repeat s n'
  end.

Definition newline : string := String (ascii_of_nat 10) EmptyString.

End Strings.

(** ** Package path/filepath

    [filepath.Join] and [filepath.Base] depend on the platform, so the
    scanner takes them as a [PathOps]; [unix] is the slash-separated
    instance, written after the rules of [filepath.Clean]. *)
Module Filepath.

Record PathOps := mkPathOps {
  Join : string -> string -> string;
  Base : string -> string
}.

(** The element stack of [Clean]: empty and [.] elements are dropped,
    [..] removes the element before it, is dropped at the top of a rooted
    path and is kept at the front of a relative one. [out] is reversed. *)
Fixpoint cleanElems (rooted : bool) (elems out : list string) : list string :=
  match elems with
  | [] => rev out
  | e :: rest =>
      if (e =? "")%string || (e =? ".")%string then cleanElems rooted rest out
      else if (e =? "..")%string then
        match out with
        | top :: out' =>
            if (top =? "..")%string then cleanElems rooted rest (e :: out)
            else cleanElems rooted rest out'
        | [] =>
            if rooted then cleanElems rooted rest []
            else cleanElems rooted rest [e]
        end
      else cleanElems rooted rest (e :: out)
  end.

(** [filepath.Clean] with separator [/]. *)
Definition Clean (path : string) : string :=
  if (path =? "")%string then "."
  else
    let rooted := Strings.HasPrefix path "/" in
    let body := String.concat "/" (cleanElems rooted (Strings.SplitSlash path) []) in
    let out := if rooted then "/" +++ body else body in
    if (out =? "")%string then "." else out.

(** [filepath.Join(dir, name)]: empty elements are ignored and the
    result is cleaned. *)
Definition unixJoin (dir name : string) : string :=
  if (dir =? "")%string then
    if (name =? "")%string then "" else Clean name
  else Clean (dir +++ "/" +++ name).

(** [filepath.Base]: the last element, trailing separators removed. *)
Definition unixBase (path : string) : string :=
  if (path =? "")%string then "."
  else
    match filter (fun e => negb (e =? "")%string) (Strings.SplitSlash path) with
    | [] => "/"
    | e :: es => last es e
    end.

Definition unix : PathOps := mkPathOps unixJoin unixBase.

End Filepath.

(** ** Errors, package os, package context *)

(** The error values the scanner creates, wraps or compares against. *)
Inductive error : Type :=
| Canceled                                  (* context.Canceled *)
| DeadlineExceeded                          (* context.DeadlineExceeded *)
| OtherError (msg : string)                 (* any other error value *)
| ErrEmptyPath                              (* "path cannot be empty" *)
| ErrStat (path : string) (cause : error)   (* "failed to stat path %q: %w" *)
| ErrNotDir (path : string)                 (* "path %q is not a directory" *)
| ErrScan (cause : error).                  (* "failed to scan directory: %w" *)

Inductive result (A : Type) : Type :=
| Ok (a : A)
| Err (e : error).
Arguments Ok {A} a.
Arguments Err {A} e.

Module Os.

(** What the scanner reads of an [os.DirEntry]. *)
Record DirEntry := mkDirEntry {
  Name : string;
  IsDir : bool
}.

(** What the scanner reads of an [os.FileInfo]. *)
Record FileInfo := mkFileInfo {
  InfoIsDir : bool
}.

(** [os.Stat] and [os.ReadDir]; a failed [ReadDir] is [None], its error
    value is only logged. *)
Record FileSystem := mkFileSystem {
  Stat : string -> result FileInfo;
  ReadDir : string -> option (list DirEntry)
}.

End Os.

(** The answer of the [n]-th poll [select { case <-ctx.Done(): ... }] made
    during a scan: [None] when the channel is still open, [Some e] when it
    is closed and [ctx.Err()] is [e]. *)
Definition Context := nat -> option error.

(** ** Package config *)
Module Config.

Record Config := mkConfig {
  MaxDepth : Z;
  ShowHidden : bool;
  SortDirs : bool;
  ShowSize : bool;
  ConcurrentOps : Z
}.

Definition DefaultConfig : Config := mkConfig 15 false true false 5.

End Config.

(** ** Package scanner *)
Module Scanner.

(** [TreeNode]; [Children] is the owning, ordered sequence. *)
Inductive TreeNode : Type := mkTreeNode {
  Path : string;
  Name : string;
  IsDir : bool;
  Children : list TreeNode
}.

Record ScanResult := mkScanResult {
  RootPath : string;
  TreeText : string;
  NodeCount : Z;
  Error : option error;
  Root : TreeNode
}.

Record FileTreeScanner := mkFileTreeScanner {
  config : Config.Config
}.

(** [NewFileTreeScanner]: a nil configuration selects the defaults. *)
Definition NewFileTreeScanner (cfg : option Config.Config) : FileTreeScanner :=
  match cfg with
  | None => mkFileTreeScanner Config.DefaultConfig
  | Some c => mkFileTreeScanner c
  end.

Definition problematicPaths : list string :=
  [ "System Volume Information";
    "$Recycle.Bin";
    "$WINDOWS.~BT";
    "Recovery";
    "ProgramData\Microsoft\Windows Defender";
    "Windows\System32\config" ].

(** [isProblematicPath]: the path contains one of [problematicPaths]. *)
Definition isProblematicPath (path : string) : bool :=
  existsb (fun problematic => Strings.Contains path problematic) problematicPaths.

(** [filterHiddenEntries]: the entries whose name does not start with a dot. *)
Definition filterHiddenEntries (entries : list Os.DirEntry) : list Os.DirEntry :=
  filter (fun entry => negb (Strings.HasPrefix (Os.Name entry) ".")) entries.

(** The comparison function given to [sort.Slice]: directories first,
    then byte-wise by name. *)
Definition less (a b : Os.DirEntry) : bool :=
  if negb (Bool.eqb (Os.IsDir a) (Os.IsDir b)) then Os.IsDir a
  else (Os.Name a <? Os.Name b)%string.

Fixpoint insertEntry (e : Os.DirEntry) (sorted : list Os.DirEntry) : list Os.DirEntry :=
  match sorted with
  | [] => [e]
  | x :: rest => if less x e then x :: insertEntry e rest else e :: sorted
  end.

(** [sortEntries]: [sort.Slice] under [less]. [less] orders entries
    totally by (kind, name), so every sorting algorithm returns the same
    sequence ([sortEntries_unique] below); insertion is the one written. *)
Definition sortEntries (entries : list Os.DirEntry) : list Os.DirEntry :=
  fold_right insertEntry [] entries.

(** The size cap: [if len(entries) > 10000 { entries = entries[:1000] }]. *)
Definition capEntries (entries : list Os.DirEntry) : list Os.DirEntry :=
  if 10000 <? Z.of_nat (List.length entries) then firstn 1000 entries else entries.

(** What one call of [scanNode] leaves behind: the node with the
    children appended so far, the two return values, and the number of
    polls of the context made since the scan began. *)
Record Outcome := mkOutcome {
  outNode : TreeNode;
  outCount : Z;
  outErr : option error;
  outClock : nat
}.

Definition appendChild (node child : TreeNode) : TreeNode :=
  mkTreeNode (Path node) (Name node) (IsDir node) (Children node ++ [child]).

(** [err == context.Canceled || err == context.DeadlineExceeded]. *)
Definition isCancellation (e : error) : bool :=
  match e with
  | Canceled | DeadlineExceeded => true
  | _ => false
  end.

Section Scan.

Variable P : Filepath.PathOps.
Variable fs : Os.FileSystem.
Variable s : FileTreeScanner.
Variable ctx : Context.

(** The loop [for i, entry := range entries] of [scanNode], with
    [scan] standing for the recursive call at [depth+1]. *)
Fixpoint scanEntries (scan : TreeNode -> nat -> option Outcome)
    (entries : list Os.DirEntry) (node : TreeNode) (nodeCount : Z) (t : nat)
    : option Outcome :=
  match entries with
  | [] => Some (mkOutcome node nodeCount None t)
  | entry :: rest =>
      match ctx t with
      | Some e => Some (mkOutcome node nodeCount (Some e) (S t))
      | None =>
          let childPath := Filepath.Join P (Path node) (Os.Name entry) in
          if isProblematicPath childPath then
            scanEntries scan rest node nodeCount (S t)
          else
            let child := mkTreeNode childPath (Os.Name entry) (Os.IsDir entry) [] in
            if Os.IsDir entry then
              match scan child (S t) with
              | None => None
              | Some r =>
                  let node' := appendChild node (outNode r) in
                  match outErr r with
                  | Some err =>
                      if isCancellation err then
                        Some (mkOutcome node' nodeCount (Some err) (outClock r))
                      else
                        scanEntries scan rest node' (nodeCount + outCount r) (outClock r)
                  | None =>
                      scanEntries scan rest node' (nodeCount + outCount r) (outClock r)
                  end
              end
            else
              scanEntries scan rest (appendChild node child) (nodeCount + 1) (S t)
      end
  end.

(** The entries of a listed directory as the loop receives them:
    capped, filtered, sorted. *)
Definition prepareEntries (entries : list Os.DirEntry) : list Os.DirEntry :=
  let entries := capEntries entries in
  let entries := if Config.ShowHidden (config s) then entries
                 else filterHiddenEntries entries in
  if Config.SortDirs (config s) then sortEntries entries else entries.

(** [scanNode]; [fuel] bounds the nesting of calls, [None] is fuel
    exhausted. *)
Fixpoint scanNodeFuel (fuel : nat) (node : TreeNode) (depth : Z) (t : nat)
    : option Outcome :=
  match fuel with
  | O => None
  | S fuel' =>
      match ctx t with
      | Some e => Some (mkOutcome node 0 (Some e) (S t))
      | None =>
          if (Config.MaxDepth (config s) >=? 0) && (depth >? Config.MaxDepth (config s)) then
            Some (mkOutcome node 0 None (S t))
          else if depth >? 50 then
            Some (mkOutcome node 1 None (S t))
          else
            match Os.ReadDir fs (Path node) with
            | None => Some (mkOutcome node 1 None (S t))
            | Some entries =>
                scanEntries (fun child => scanNodeFuel fuel' child (depth + 1))
                  (prepareEntries entries) node 1 (S t)
            end
      end
  end.

(** The calls nest at most to depth 51, so this fuel is never used up
    ([scanNode_total] below). *)
Definition scanFuel (depth : Z) : nat := S (Z.to_nat (51 - depth)).

Definition scanNode (node : TreeNode) (depth : Z) (t : nat) : option Outcome :=
  scanNodeFuel (scanFuel depth) node depth t.

(** [ScanDirectory], with the number of polls made. *)
Definition ScanDirectoryRun (path : string) : option (result ScanResult * nat) :=
  if (path =? "")%string then Some (Err ErrEmptyPath, O)
  else
    match Os.Stat fs path with
    | Err err => Some (Err (ErrStat path err), O)
    | Ok info =>
        if negb (Os.InfoIsDir info) then Some (Err (ErrNotDir path), O)
        else
          let root := mkTreeNode path (Filepath.Base P path) true [] in
          match scanNode root 0 O with
          | None => None
          | Some r =>
              match outErr r with
              | Some err => Some (Err (ErrScan err), outClock r)
              | None =>
                  Some (Ok (mkScanResult path "" (outCount r) None (outNode r)),
                        outClock r)
              end
          end
    end.

Definition ScanDirectory (path : string) : option (result ScanResult) :=
  option_map fst (ScanDirectoryRun path).

End Scan.

(** Independent measures of a returned tree. *)
Fixpoint treeSize (n : TreeNode) : Z :=
  match n with
  | mkTreeNode _ _ _ children =>
      1 + (fix sizes (l : list TreeNode) : Z :=
             match l with
             | [] => 0
             | c :: l' => treeSize c + sizes l'
             end) children
  end.

Fixpoint treeHeight (n : TreeNode) : nat :=
  match n with
  | mkTreeNode _ _ _ children =>
      (fix heights (l : list TreeNode) : nat :=
         match l with
         | [] => O
         | c :: l' => Nat.max (S (treeHeight c)) (heights l')
         end) children
  end.

(** All nodes of a tree, in pre-order. *)
Fixpoint nodes (n : TreeNode) : list TreeNode :=
  match n with
  | mkTreeNode _ _ _ children =>
      n :: (fix all (l : list TreeNode) : list TreeNode :=
              match l with
              | [] => []
              | c :: l' => nodes c ++ all l'
              end) children
  end.

End Scanner.

(** ** Package renderer *)
Module Renderer.
Import Scanner.

Definition folderIcon : string := "📁".
Definition fileIcon : string := "📄".
Definition treeVertical : string := "│".
Definition treeBranch : string := "├──".
Definition treeLastBranch : string := "└──".
Definition treeSpacing : string := "    ".
Definition treeConnection : string := "│   ".

(** The line of a node: [fmt.Sprintf("%s %s\n", icon, name)]. *)
Definition nodeLine (node : TreeNode) : string :=
  if IsDir node then folderIcon +++ " " +++ (Name node +++ "/") +++ Strings.newline
  else fileIcon +++ " " +++ Name node +++ Strings.newline.

(** The connector and the prefix handed to the child, for the child at
    index [i] of [n] children. *)
Definition connectorFor (isRoot : bool) (prefix : string) (i n : Z) : string * string :=
  let isLast := i =? n - 1 in
  if isRoot && (i =? 0) then ("", "")
  else if isLast then (treeLastBranch +++ " ", prefix +++ treeSpacing)
  else (treeBranch +++ " ", prefix +++ treeConnection).

(** [renderNode]: the text written to the builder. *)
Fixpoint renderNode (node : TreeNode) (prefix : string) (isRoot : bool) : string :=
  match node with
  | mkTreeNode _ _ _ children =>
      (if isRoot then "" else nodeLine node) +++
      (fix loop (i : Z) (rest : list TreeNode) : string :=
         match rest with
         | [] => ""
         | child :: rest' =>
             let '(connector, nextPrefix) :=
               connectorFor isRoot prefix i (Z.of_nat (List.length children)) in
             (prefix +++ connector) +++ renderNode child nextPrefix false +++
             loop (i + 1) rest'
         end) 0 children
  end.

(** [RenderTree]; [None] is the nil root. *)
Definition RenderTree (root : option TreeNode) : string :=
  match root with
  | None => ""
  | Some root =>
      ("File Tree for: " +++ Path root +++ Strings.newline) +++
      (Strings.Repeat "=" 50 +++ Strings.newline +++ Strings.newline) +++
      renderNode root "" true
  end.

End Renderer.

(** ** Fixtures *)
Module Fixtures.
Import Scanner.

Definition dir (name : string) : Os.DirEntry := Os.mkDirEntry name true.
Definition file (name : string) : Os.DirEntry := Os.mkDirEntry name false.

(** A context that is never done. *)
Definition background : Context := fun _ => None.

(** A context that is done from poll [k] on, with error [e]. *)
Definition doneFrom (k : nat) (e : error) : Context :=
  fun t => if (k <=? t)%nat then Some e else None.

(** A filesystem given by the listing of each directory; every listed
    path is a directory, every other path does not exist. *)
Definition ofListing (listing : list (string * list Os.DirEntry)) : Os.FileSystem :=
  let find path :=
    option_map snd (List.find (fun kv => (fst kv =? path)%string) listing) in
  Os.mkFileSystem
    (fun path => match find path with
                 | Some _ => Ok (Os.mkFileInfo true)
                 | None => Err (OtherError "no such file or directory")
                 end)
    find.

(** The scenario of the specification: [root] holds the directory [b]
    (files [z.txt], [a.txt]) and the file [a.log]. *)
Definition scenario : Os.FileSystem :=
  ofListing [ ("root", [file "a.log"; dir "b"]);
              ("root/b", [file "z.txt"; file "a.txt"]) ].

(** Every path is a directory holding the single directory [d]. *)
Definition chain : Os.FileSystem :=
  Os.mkFileSystem (fun _ => Ok (Os.mkFileInfo true)) (fun _ => Some [dir "d"]).

Definition withMaxDepth (d : Z) : FileTreeScanner :=
  mkFileTreeScanner (Config.mkConfig d false true false 5).

Definition defaults : FileTreeScanner := NewFileTreeScanner None.

(** The tree [ScanDirectory] builds for [scenario] under the defaults. *)
Definition scenarioTree : TreeNode :=
  mkTreeNode "root" "root" true
    [ mkTreeNode "root/b" "b" true
        [ mkTreeNode "root/b/a.txt" "a.txt" false [];
          mkTreeNode "root/b/z.txt" "z.txt" false [] ];
      mkTreeNode "root/a.log" "a.log" false [] ].

(** [root] holds the directory [locked], which cannot be listed, and a file. *)
Definition locked : Os.FileSystem :=
  ofListing [ ("root", [dir "locked"; file "a.txt"]) ].

(** The working directory holds the directory [Recovery] and a file, and
    is scanned under the name [Recovery/..]. *)
Definition aboveRecovery : Os.FileSystem :=
  ofListing [ ("Recovery/..", [dir "Recovery"; file "a.txt"]) ].

(** A directory below a directory named [Recovery]. *)
Definition belowRecovery : Os.FileSystem :=
  ofListing [ ("/data/Recovery", [dir "logs"; file "a.txt"]) ].

(** A directory of 10001 files. *)
Definition manyEntries : list Os.DirEntry := repeat (file "f") (Z.to_nat 10001).

Definition crowded : Os.FileSystem := ofListing [ ("big", manyEntries) ].

End Fixtures.

(** * Properties *)

(** ** Strings *)
Module StringFacts.
Import Strings.

Lemma prefix_nil_r : forall p, String.prefix p EmptyString = true -> p = EmptyString.
Proof. destruct p; simpl; [reflexivity | discriminate]. Qed.

Lemma prefix_iff_app : forall p s,
  String.prefix p s = true <-> exists x, s = p +++ x.
Proof.
  induction p as [|a p IH]; intros s.
  - destruct s; simpl; split; eauto.
  - destruct s as [|b s]; simpl.
    + split; [discriminate | intros [x Hx]; discriminate].
    + destruct (ascii_dec a b) as [->|Hne].
      * rewrite IH. split; intros [x Hx]; exists x; congruence.
      * split; [discriminate | intros [x Hx]; congruence].
Qed.

Lemma HasPrefix_app : forall s p x, HasPrefix s p = true -> HasPrefix (s +++ x) p = true.
Proof.
  unfold HasPrefix. intros s p x H.
  apply prefix_iff_app in H as [y ->].
  apply prefix_iff_app. exists (y +++ x).
  clear. induction p; simpl; [reflexivity | f_equal; assumption].
Qed.

(** [Contains] is the existence of an occurrence. *)
Lemma Contains_iff : forall s sub,
  Contains s sub = true <-> exists a b, s = a +++ sub +++ b.
Proof.
  induction s as [|c s IH]; intros sub; cbn [Contains].
  - unfold HasPrefix. split.
    + intros H. apply prefix_nil_r in H. subst. exists EmptyString, EmptyString. reflexivity.
    + intros (a & b & H). destruct a; [destruct sub|]; simpl in H; try discriminate. reflexivity.
  - rewrite orb_true_iff, IH. unfold HasPrefix. rewrite prefix_iff_app. split.
    + intros [[x Hx] | (a & b & Hab)].
      * exists EmptyString, x. exact Hx.
      * exists (String c a), b. simpl. congruence.
    + intros (a & b & H). destruct a as [|c' a]; simpl in H.
      * left. exists b. exact H.
      * right. exists a, b. congruence.
Qed.

Lemma append_assoc : forall a b c, (a +++ b) +++ c = a +++ b +++ c.
Proof. induction a; simpl; intros; [reflexivity | f_equal; auto]. Qed.

(** An occurrence in a prefix of [s] is an occurrence in [s]. *)
Lemma Contains_of_prefix : forall p s sub,
  HasPrefix s p = true -> Contains p sub = true -> Contains s sub = true.
Proof.
  unfold HasPrefix. intros p s sub Hp Hc.
  apply prefix_iff_app in Hp as [x ->].
  apply Contains_iff in Hc as (a & b & ->).
  apply Contains_iff. exists a, (b +++ x).
  now rewrite !append_assoc.
Qed.

(** Byte-wise comparison is a strict total order. *)
Lemma ascii_compare_refl : forall c, Ascii.compare c c = Eq.
Proof. intros c. unfold Ascii.compare. apply N.compare_refl. Qed.

Lemma compare_refl : forall s, String.compare s s = Eq.
Proof. induction s; simpl; [reflexivity | now rewrite ascii_compare_refl]. Qed.

Lemma ltb_irrefl : forall s, (s <? s)%string = false.
Proof. intros s. unfold String.ltb. now rewrite compare_refl. Qed.

Lemma compare_lt_trans : forall a b c,
  String.compare a b = Lt -> String.compare b c = Lt -> String.compare a c = Lt.
Proof.
  induction a as [|x a IH]; intros [|y b] [|z c]; simpl; try congruence.
  unfold Ascii.compare.
  destruct (N.compare_spec (N_of_ascii x) (N_of_ascii y)) as [Exy|Lxy|Gxy]; try discriminate;
  destruct (N.compare_spec (N_of_ascii y) (N_of_ascii z)) as [Eyz|Lyz|Gyz]; try discriminate;
  intros H1 H2.
  - rewrite Exy, Eyz, N.compare_refl. eauto.
  - rewrite Exy. now apply N.compare_lt_iff in Lyz as ->.
  - rewrite <- Eyz. now apply N.compare_lt_iff in Lxy as ->.
  - assert (L : (N_of_ascii x < N_of_ascii z)%N) by lia.
    now apply N.compare_lt_iff in L as ->.
Qed.

Lemma ltb_trans : forall a b c,
  (a <? b)%string = true -> (b <? c)%string = true -> (a <? c)%string = true.
Proof.
  unfold String.ltb. intros a b c Hab Hbc.
  destruct (String.compare a b) eqn:E1; try discriminate.
  destruct (String.compare b c) eqn:E2; try discriminate.
  now rewrite (compare_lt_trans _ _ _ E1 E2).
Qed.

Lemma ltb_total : forall a b,
  (a <? b)%string = false -> (b <? a)%string = false -> a = b.
Proof.
  unfold String.ltb. intros a b Hab Hba.
  rewrite String.compare_antisym in Hba.
  destruct (String.compare a b) eqn:E; simpl in *; try discriminate.
  now apply String.compare_eq_iff.
Qed.

Lemma ltb_leb : forall a b, (a <? b)%string = true -> (a <=? b)%string = true.
Proof.
  unfold String.ltb, String.leb. intros a b. now destruct (String.compare a b).
Qed.

Lemma not_ltb_leb : forall a b, (b <? a)%string = false -> (a <=? b)%string = true.
Proof.
  unfold String.ltb, String.leb. intros a b. rewrite String.compare_antisym.
  now destruct (String.compare a b).
Qed.

End StringFacts.

(** ** Cleaning and joining paths *)
Module FilepathFacts.
Import Filepath.

(** Inputs of [Clean] and the results the library documents for them. *)
Definition cleanCases : list (string * string) :=
  [ ("abc", "abc"); ("abc/def", "abc/def"); ("a/b/c", "a/b/c"); (".", ".");
    ("..", ".."); ("../..", "../.."); ("../../abc", "../../abc"); ("/abc", "/abc");
    ("/", "/"); ("", ".");
    ("abc/", "abc"); ("abc/def/", "abc/def"); ("a/b/c/", "a/b/c"); ("./", ".");
    ("../", ".."); ("../../", "../.."); ("/abc/", "/abc");
    ("abc//def//ghi", "abc/def/ghi"); ("abc//", "abc");
    ("abc/./def", "abc/def"); ("/./abc/def", "/abc/def"); ("abc/.", "abc");
    ("abc/def/ghi/../jkl", "abc/def/jkl"); ("abc/def/../ghi/../jkl", "abc/jkl");
    ("abc/def/..", "abc"); ("abc/def/../..", "."); ("/abc/def/../..", "/");
    ("abc/def/../../..", ".."); ("/abc/def/../../..", "/");
    ("abc/def/../../../ghi/jkl/../../../mno", "../../mno"); ("/../abc", "/abc");
    ("abc/./../def", "def"); ("abc//./../def", "def");
    ("abc/../../././../def", "../../def") ].

Lemma Clean_cases :
  forallb (fun io => (Clean (fst io) =? snd io)%string) cleanCases = true.
Proof. vm_compute. reflexivity. Qed.

Lemma Join_cases :
  unixJoin "a" "b" = "a/b" /\
  unixJoin "a" "" = "a" /\
  unixJoin "" "b" = "b" /\
  unixJoin "/" "a" = "/a" /\
  unixJoin "a/b" "../../../xyz" = "../xyz" /\
  unixJoin "root" "b" = "root/b" /\
  unixJoin "/data/Recovery" "a.txt" = "/data/Recovery/a.txt" /\
  unixJoin "Recovery/.." "a.txt" = "a.txt".
Proof. repeat split; vm_compute; reflexivity. Qed.

Lemma Base_cases :
  unixBase "" = "." /\
  unixBase "/" = "/" /\
  unixBase "///" = "/" /\
  unixBase "/a/b" = "b" /\
  unixBase "a/b//" = "b" /\
  unixBase "root" = "root".
Proof. repeat split; vm_compute; reflexivity. Qed.

End FilepathFacts.

(** ** Sorting of directory entries *)
Module SortFacts.
Import Scanner StringFacts.

(** [a] may stand before [b] in a slice sorted under [less]. *)
Definition entryLe (a b : Os.DirEntry) : Prop := less b a = false.

Lemma less_irrefl : forall a, less a a = false.
Proof.
  intros [n d]. unfold less; simpl. rewrite Bool.eqb_reflx. simpl. apply ltb_irrefl.
Qed.

Lemma less_trans : forall a b c, less a b = true -> less b c = true -> less a c = true.
Proof.
  intros [na [|]] [nb [|]] [nc [|]]; unfold less; simpl; try congruence; apply ltb_trans.
Qed.

Lemma less_asym : forall a b, less a b = true -> less b a = false.
Proof.
  intros a b Hab. destruct (less b a) eqn:Hba; [|reflexivity].
  pose proof (less_trans _ _ _ Hab Hba) as H. now rewrite less_irrefl in H.
Qed.

Lemma less_total : forall a b, less a b = false -> less b a = false -> a = b.
Proof.
  intros [na [|]] [nb [|]]; unfold less; simpl; try congruence;
    intros H1 H2; f_equal; now apply ltb_total.
Qed.

Lemma entryLe_trans : forall a b c, entryLe a b -> entryLe b c -> entryLe a c.
Proof.
  unfold entryLe. intros a b c Hab Hbc.
  destruct (less c a) eqn:Hca; [|reflexivity].
  destruct (less a b) eqn:Hlab.
  - pose proof (less_trans _ _ _ Hca Hlab). congruence.
  - assert (a = b) by now apply less_total. subst. congruence.
Qed.

Lemma insertEntry_perm : forall e l, Permutation (e :: l) (insertEntry e l).
Proof.
  induction l as [|x l IH]; simpl; [reflexivity|].
  destruct (less x e); [|reflexivity].
  etransitivity; [apply perm_swap | now constructor].
Qed.

Lemma insertEntry_sorted : forall e l,
  StronglySorted entryLe l -> StronglySorted entryLe (insertEntry e l).
Proof.
  induction l as [|x l IH]; intros Hs; simpl.
  - repeat constructor.
  - apply StronglySorted_inv in Hs as [Hl Hx].
    destruct (less x e) eqn:Hxe.
    + constructor; [auto|].
      eapply Permutation_Forall; [apply insertEntry_perm|].
      constructor; [|assumption]. unfold entryLe. now apply less_asym.
    + constructor; [now constructor|].
      constructor; [exact Hxe|].
      eapply Forall_impl; [|exact Hx].
      intros y Hy. eapply entryLe_trans; [exact Hxe | exact Hy].
Qed.

Lemma sortEntries_perm : forall l, Permutation l (sortEntries l).
Proof.
  induction l as [|e l IH]; simpl; [constructor|].
  etransitivity; [|apply insertEntry_perm]. now constructor.
Qed.

Lemma sortEntries_sorted : forall l, StronglySorted entryLe (sortEntries l).
Proof.
  induction l as [|e l IH]; simpl; [constructor | now apply insertEntry_sorted].
Qed.

(** A sorted slice is determined by its elements: whatever algorithm
    [sort.Slice] runs, its result is [sortEntries]. *)
Lemma sorted_perm_eq : forall l1 l2,
  StronglySorted entryLe l1 -> StronglySorted entryLe l2 ->
  Permutation l1 l2 -> l1 = l2.
Proof.
  induction l1 as [|a l1 IH]; intros l2 H1 H2 Hp.
  - apply Permutation_nil in Hp. now subst.
  - destruct l2 as [|b l2]; [apply Permutation_sym, Permutation_nil in Hp; discriminate|].
    apply StronglySorted_inv in H1 as [H1 Ha].
    apply StronglySorted_inv in H2 as [H2 Hb].
    assert (a = b) as ->.
    { assert (Iab : In a (b :: l2)) by (eapply Permutation_in; [exact Hp | now left]).
      assert (Iba : In b (a :: l1))
        by (eapply Permutation_in; [apply Permutation_sym; exact Hp | now left]).
      destruct Iab as [->|Iab]; [reflexivity|].
      destruct Iba as [->|Iba]; [reflexivity|].
      rewrite Forall_forall in Ha, Hb.
      specialize (Ha _ Iba). specialize (Hb _ Iab). unfold entryLe in *.
      now apply less_total. }
    f_equal. apply IH; auto. eapply Permutation_cons_inv; exact Hp.
Qed.

Lemma sortEntries_unique : forall l l',
  Permutation l l' -> StronglySorted entryLe l' -> l' = sortEntries l.
Proof.
  intros l l' Hp Hs. apply sorted_perm_eq; auto using sortEntries_sorted.
  etransitivity; [apply Permutation_sym; exact Hp | apply sortEntries_perm].
Qed.

End SortFacts.

(** ** The traversal *)
Module ScanFacts.
Import Scanner.

(** *** Measures of a tree, by its children *)

Lemma nodes_eq : forall n, nodes n = n :: flat_map nodes (Children n).
Proof.
  intros [p nm d cs]. simpl. f_equal.
  all: induction cs as [|c cs IH]; simpl; [reflexivity | now rewrite IH].
Qed.

Lemma treeSize_eq : forall n,
  treeSize n = 1 + fold_right (fun c acc => treeSize c + acc) 0 (Children n).
Proof.
  intros [p nm d cs]. cbn -[Z.add]. f_equal.
  all: induction cs as [|c cs IH]; cbn -[Z.add]; [reflexivity | now rewrite IH].
Qed.

Lemma treeHeight_eq : forall n,
  treeHeight n = fold_right (fun c acc => Nat.max (S (treeHeight c)) acc) O (Children n).
Proof.
  intros [p nm d cs]. cbn -[Nat.max].
  induction cs as [|c cs IH]; cbn -[Nat.max]; [reflexivity | now rewrite IH].
Qed.

Lemma nodes_self : forall n, In n (nodes n).
Proof. intros n. rewrite nodes_eq. now left. Qed.

Lemma nodes_child : forall n c x, In c (Children n) -> In x (nodes c) -> In x (nodes n).
Proof.
  intros n c x Hc Hx. rewrite nodes_eq. right.
  apply in_flat_map. eauto.
Qed.

(** *** The equation of [scanNode] *)

Definition depthLimited (s : FileTreeScanner) (depth : Z) : bool :=
  (Config.MaxDepth (config s) >=? 0) && (depth >? Config.MaxDepth (config s)).

Section Traversal.

Variable P : Filepath.PathOps.
Variable fs : Os.FileSystem.
Variable s : FileTreeScanner.
Variable ctx : Context.

Lemma scanFuel_step : forall depth,
  depth <= 50 -> scanFuel depth = S (scanFuel (depth + 1)).
Proof.
  intros depth H. unfold scanFuel. f_equal.
  replace (51 - depth) with (Z.succ (51 - (depth + 1))) by lia.
  rewrite Z2Nat.inj_succ by lia. reflexivity.
Qed.

(** [scanNode] satisfies the equation its source text reads as. *)
Lemma scanNode_eq : forall node depth t,
  scanNode P fs s ctx node depth t =
  match ctx t with
  | Some e => Some (mkOutcome node 0 (Some e) (S t))
  | None =>
      if depthLimited s depth then Some (mkOutcome node 0 None (S t))
      else if depth >? 50 then Some (mkOutcome node 1 None (S t))
      else
        match Os.ReadDir fs (Path node) with
        | None => Some (mkOutcome node 1 None (S t))
        | Some entries =>
            scanEntries P ctx (fun child => scanNode P fs s ctx child (depth + 1))
              (prepareEntries s entries) node 1 (S t)
        end
  end.
Proof.
  intros node depth t. unfold scanNode, depthLimited.
  destruct (depth >? 50) eqn:Hd.
  - unfold scanFuel. cbn [scanNodeFuel]. rewrite Hd.
    destruct (ctx t); [reflexivity|].
    destruct (_ && _); reflexivity.
  - rewrite scanFuel_step by lia. cbn [scanNodeFuel]. rewrite Hd. reflexivity.
Qed.

(** *** Totality: the fuel is never used up *)

Lemma scanEntries_total : forall scan,
  (forall c t, scan c t <> None) ->
  forall entries node count t,
    scanEntries P ctx scan entries node count t <> None.
Proof.
  intros scan Hscan. induction entries as [|e rest IH]; intros node count t;
    cbn [scanEntries]; [discriminate|].
  destruct (ctx t); [discriminate|].
  destruct (isProblematicPath _); [apply IH|].
  destruct (Os.IsDir e); [|apply IH].
  destruct (scan _ _) as [r|] eqn:Hr; [|now apply Hscan in Hr].
  destruct (outErr r) as [err|]; [destruct (isCancellation err)|];
    first [discriminate | apply IH].
Qed.

Lemma scanNodeFuel_total : forall fuel node depth t,
  (Z.to_nat (51 - depth) < fuel)%nat ->
  scanNodeFuel P fs s ctx fuel node depth t <> None.
Proof.
  induction fuel as [|fuel IH]; intros node depth t Hf; [lia|].
  cbn [scanNodeFuel].
  destruct (ctx t); [discriminate|].
  destruct (_ && _); [discriminate|].
  destruct (depth >? 50) eqn:Hd; [discriminate|].
  destruct (Os.ReadDir fs (Path node)); [|discriminate].
  apply scanEntries_total. intros c t'. apply IH. lia.
Qed.

Lemma scanNode_total : forall node depth t,
  exists r, scanNode P fs s ctx node depth t = Some r.
Proof.
  intros node depth t.
  destruct (scanNode P fs s ctx node depth t) as [r|] eqn:E; [eauto|].
  exfalso. revert E. apply scanNodeFuel_total. unfold scanFuel. lia.
Qed.

Lemma ScanDirectoryRun_total : forall path,
  exists res, ScanDirectoryRun P fs s ctx path = Some res.
Proof.
  intros path. unfold ScanDirectoryRun.
  destruct (path =? "")%string; [eauto|].
  destruct (Os.Stat fs path) as [info|err]; [|eauto].
  destruct (negb (Os.InfoIsDir info)); [eauto|].
  destruct (scanNode_total (mkTreeNode path (Filepath.Base P path) true []) 0 O) as [r ->].
  destruct (outErr r); eauto.
Qed.

(** *** The children a frame builds *)

Definition withChildren (node : TreeNode) (cs : list TreeNode) : TreeNode :=
  mkTreeNode (Path node) (Name node) (IsDir node) cs.

(** [selected parentPath entries cs]: the nodes [cs] were built, in order,
    for some of [entries], each with the entry's name and kind, with the
    joined path, and none with a problematic path. *)
Inductive selected (parentPath : string) : list Os.DirEntry -> list TreeNode -> Prop :=
| selected_stop : forall entries, selected parentPath entries []
| selected_skip : forall e entries cs,
    selected parentPath entries cs -> selected parentPath (e :: entries) cs
| selected_take : forall e entries c cs,
    Path c = Filepath.Join P parentPath (Os.Name e) ->
    Name c = Os.Name e ->
    IsDir c = Os.IsDir e ->
    isProblematicPath (Path c) = false ->
    selected parentPath entries cs ->
    selected parentPath (e :: entries) (c :: cs).

(** The entries the loop of a node runs over. *)
Definition listing (n : TreeNode) : list Os.DirEntry :=
  match Os.ReadDir fs (Path n) with
  | Some entries => prepareEntries s entries
  | None => []
  end.

Definition nodeInv (n : TreeNode) : Prop := selected (Path n) (listing n) (Children n).

Definition sameHead (a b : TreeNode) : Prop :=
  Path a = Path b /\ Name a = Name b /\ IsDir a = IsDir b.

Lemma withChildren_self : forall node, withChildren node (Children node) = node.
Proof. now intros []. Qed.

Lemma appendChild_eq : forall node c,
  appendChild node c = withChildren node (Children node ++ [c]).
Proof. reflexivity. Qed.

Lemma scanEntries_shape :
  forall (scan : TreeNode -> nat -> option Outcome) (Good : TreeNode -> Prop),
    (forall c t r, scan c t = Some r -> Children c = [] ->
       sameHead (outNode r) c /\ Good (outNode r)) ->
    (forall c, Children c = [] -> IsDir c = false -> Good c) ->
    forall entries node count t r,
      scanEntries P ctx scan entries node count t = Some r ->
      exists cs,
        outNode r = withChildren node (Children node ++ cs) /\
        selected (Path node) entries cs /\ Forall Good cs.
Proof.
  intros scan Good Hscan Hfile.
  induction entries as [|e rest IH]; intros node count t r H; cbn [scanEntries] in H.
  - injection H as <-. exists []. cbn [outNode]. rewrite app_nil_r, withChildren_self.
    repeat split; constructor.
  - destruct (ctx t) as [err|].
    { injection H as <-. exists []. cbn [outNode]. rewrite app_nil_r, withChildren_self.
      repeat split; constructor. }
    destruct (isProblematicPath _) eqn:Hp.
    { apply IH in H as (cs & Hn & Hsel & Hg). exists cs. repeat split; auto.
      now apply selected_skip. }
    destruct (Os.IsDir e) eqn:Hd.
    + destruct (scan _ _) as [r1|] eqn:Hr1; [|discriminate].
      apply Hscan in Hr1 as [(Hpath & Hname & Hdir) Hgood]; [|reflexivity].
      cbn [Path Name IsDir] in Hpath, Hname, Hdir.
      assert (Htake : forall cs, selected (Path node) rest cs ->
                selected (Path node) (e :: rest) (outNode r1 :: cs)).
      { intros cs Hcs. apply selected_take; auto; congruence. }
      assert (Hcont : forall count',
                scanEntries P ctx scan rest (appendChild node (outNode r1)) count'
                  (outClock r1) = Some r ->
                exists cs, outNode r = withChildren node (Children node ++ cs) /\
                           selected (Path node) (e :: rest) cs /\ Forall Good cs).
      { intros count' Hc. apply IH in Hc as (cs & Hn & Hsel & Hg).
        exists (outNode r1 :: cs). repeat split; auto.
        rewrite Hn. unfold withChildren. cbn. now rewrite <- app_assoc. }
      destruct (outErr r1) as [err|]; [destruct (isCancellation err)|]; eauto.
      injection H as <-. exists [outNode r1]. cbn [outNode].
      repeat split; [apply Htake; constructor | now constructor].
    + apply IH in H as (cs & Hn & Hsel & Hg).
      exists (mkTreeNode (Filepath.Join P (Path node) (Os.Name e)) (Os.Name e) false [] :: cs).
      repeat split.
      * rewrite Hn. unfold withChildren. cbn. now rewrite <- app_assoc.
      * apply selected_take; auto.
      * constructor; [now apply Hfile | exact Hg].
Qed.

(** Every node of the tree a frame returns holds children selected from
    its own prepared listing, and the tree is no higher than the ceiling
    leaves room for. *)
Lemma scanNodeFuel_shape : forall fuel node depth t r,
  scanNodeFuel P fs s ctx fuel node depth t = Some r ->
  Children node = [] ->
  sameHead (outNode r) node /\
  (Forall nodeInv (nodes (outNode r)) /\
   (treeHeight (outNode r) <= Z.to_nat (51 - depth))%nat).
Proof.
  assert (Hleaf : forall node h, Children node = [] ->
            sameHead node node /\ (Forall nodeInv (nodes node) /\ (treeHeight node <= h)%nat)).
  { intros node h Hc. split; [now repeat split|]. split.
    - rewrite nodes_eq, Hc. cbn. constructor; [|constructor].
      unfold nodeInv. rewrite Hc. constructor.
    - rewrite treeHeight_eq, Hc. cbn. lia. }
  induction fuel as [|fuel IH]; intros node depth t r H Hc; [discriminate|].
  cbn [scanNodeFuel] in H.
  destruct (ctx t); [injection H as <-; now apply Hleaf|].
  destruct (_ && _); [injection H as <-; now apply Hleaf|].
  destruct (depth >? 50) eqn:Hd; [injection H as <-; now apply Hleaf|].
  destruct (Os.ReadDir fs (Path node)) as [entries|] eqn:Hrd;
    [|injection H as <-; now apply Hleaf].
  apply (scanEntries_shape _
           (fun c => Forall nodeInv (nodes c) /\
                     (treeHeight c <= Z.to_nat (51 - (depth + 1)))%nat)) in H.
  - destruct H as (cs & Hn & Hsel & Hg). rewrite Hc in Hn. cbn [app] in Hn.
    rewrite Hn. split; [now repeat split|]. split.
    + rewrite nodes_eq. cbn [withChildren Children]. constructor.
      * unfold nodeInv, listing. cbn [withChildren Path Children]. now rewrite Hrd.
      * clear - Hg. induction Hg as [|c cs [Hc _] _ IHg]; cbn; [constructor|].
        apply Forall_app. split; assumption.
    + rewrite treeHeight_eq. cbn [withChildren Children].
      assert (Hh : (S (Z.to_nat (51 - (depth + 1))) <= Z.to_nat (51 - depth))%nat) by lia.
      clear - Hg Hh. induction Hg as [|c cs [_ Hc] _ IHg]; cbn -[Nat.max Z.sub]; lia.
  - intros c t' r' Hr' Hc'. apply IH in Hr'; auto.
  - intros c Hc' _. apply Hleaf. exact Hc'.
Qed.

(** *** Polls of the context *)

(** [stops t r]: a run that began at poll [t] and ended as [r] made the
    polls [t .. outClock r - 1]; a cancellation or deadline answer to any of
    them ended the run there with that error, and an error it returns is
    the answer to its last poll. *)
Definition stops (t : nat) (r : Outcome) : Prop :=
  (t <= outClock r)%nat /\
  (forall k e, (t <= k < outClock r)%nat -> ctx k = Some e -> isCancellation e = true ->
     outClock r = S k /\ outErr r = Some e) /\
  (forall e, outErr r = Some e -> (t < outClock r)%nat /\ ctx (pred (outClock r)) = Some e).

Lemma stops_step : forall t r,
  ctx t = None -> stops (S t) r -> stops t r.
Proof.
  intros t r Hnone (Hle & Hobs & Herr). split; [lia|]. split.
  - intros k e Hk Hctx Hcan.
    assert (k <> t) by congruence. apply Hobs; auto. lia.
  - intros e He. apply Herr in He. split; [lia | tauto].
Qed.

Lemma stops_seq : forall t r1 r,
  stops t r1 ->
  (forall e, outErr r1 = Some e -> isCancellation e = false) ->
  stops (outClock r1) r -> stops t r.
Proof.
  intros t r1 r (Hle1 & Hobs1 & _) Hok (Hle & Hobs & Herr). split; [lia|]. split.
  - intros k e Hk Hctx Hcan.
    destruct (Nat.lt_ge_cases k (outClock r1)) as [Hlt|Hge].
    + destruct (Hobs1 k e ltac:(lia) Hctx Hcan) as [_ He]. apply Hok in He. congruence.
    + apply Hobs; auto. lia.
  - intros e He. apply Herr in He. split; [lia | tauto].
Qed.

Lemma stops_now : forall t node count e,
  ctx t = Some e -> stops t (mkOutcome node count (Some e) (S t)).
Proof.
  intros t node count e Hctx. unfold stops. cbn [outClock outErr]. split; [lia|]. split.
  - intros k e' Hk Hctx' _. assert (k = t) by lia. subst. split; congruence.
  - intros e' [= <-]. split; [lia | exact Hctx].
Qed.

Lemma stops_idle : forall t node count, stops t (mkOutcome node count None t).
Proof.
  intros t node count. unfold stops. cbn [outClock outErr]. split; [lia|]. split.
  - intros k e Hk. lia.
  - discriminate.
Qed.

Lemma scanEntries_stops : forall scan,
  (forall c t r, scan c t = Some r -> stops t r) ->
  forall entries node count t r,
    scanEntries P ctx scan entries node count t = Some r -> stops t r.
Proof.
  intros scan Hscan.
  induction entries as [|e rest IH]; intros node count t r H; cbn [scanEntries] in H.
  - injection H as <-. apply stops_idle.
  - destruct (ctx t) as [err|] eqn:Hctx; [injection H as <-; now apply stops_now|].
    apply stops_step; [exact Hctx|].
    destruct (isProblematicPath _); [now apply IH in H|].
    destruct (Os.IsDir e); [|now apply IH in H].
    destruct (scan _ _) as [r1|] eqn:Hr1; [|discriminate].
    apply Hscan in Hr1.
    destruct (outErr r1) as [err|] eqn:He1.
    + destruct (isCancellation err) eqn:Hcan.
      * injection H as <-. destruct Hr1 as (Hle & Hobs & Herr).
        split; [exact Hle|]. split; cbn [outClock outErr].
        -- intros k e' Hk Hctx' Hcan'. rewrite <- He1. now apply Hobs.
        -- intros e' [= <-]. now apply Herr.
      * apply IH in H. eapply stops_seq; eauto.
        intros e' He'. congruence.
    + apply IH in H. eapply stops_seq; eauto. intros e' He'. congruence.
Qed.

Lemma scanNodeFuel_stops : forall fuel node depth t r,
  scanNodeFuel P fs s ctx fuel node depth t = Some r ->
  (t < outClock r)%nat /\ stops t r.
Proof.
  induction fuel as [|fuel IH]; intros node depth t r H; [discriminate|].
  cbn [scanNodeFuel] in H.
  destruct (ctx t) as [err|] eqn:Hctx.
  { injection H as <-. split; [cbn; lia | now apply stops_now]. }
  assert (Hidle : forall count,
            (t < outClock (mkOutcome node count None (S t)))%nat /\
            stops t (mkOutcome node count None (S t))).
  { intros count. split; [cbn; lia|]. apply stops_step; auto using stops_idle. }
  destruct (_ && _); [injection H as <-; apply Hidle|].
  destruct (depth >? 50); [injection H as <-; apply Hidle|].
  destruct (Os.ReadDir fs (Path node)); [|injection H as <-; apply Hidle].
  apply scanEntries_stops in H.
  - split; [destruct H as [H _]; lia | now apply stops_step].
  - intros c t' r' Hr'. now apply IH in Hr'.
Qed.

(** *** What a successful [ScanDirectory] ran *)

Definition rootNode (path : string) : TreeNode :=
  mkTreeNode path (Filepath.Base P path) true [].

Lemma ScanDirectory_Ok_inv : forall path res,
  ScanDirectory P fs s ctx path = Some (Ok res) ->
  path <> "" /\
  Os.Stat fs path = Ok (Os.mkFileInfo true) /\
  exists r,
    scanNode P fs s ctx (rootNode path) 0 O = Some r /\
    outErr r = None /\
    res = mkScanResult path "" (outCount r) None (outNode r).
Proof.
  intros path res. unfold ScanDirectory, ScanDirectoryRun, rootNode.
  destruct (String.eqb_spec path "") as [->|Hne]; [discriminate|].
  destruct (Os.Stat fs path) as [[[|]]|err]; cbn [negb Os.InfoIsDir]; try discriminate.
  destruct (scanNode _ _ _ _ _ _ _) as [r|]; [|discriminate].
  destruct (outErr r) eqn:He; cbn; intros [= <-].
  repeat split; auto. exists r. auto.
Qed.

Lemma selected_not_problematic : forall parentPath entries cs,
  selected parentPath entries cs ->
  Forall (fun c => isProblematicPath (Path c) = false) cs.
Proof. induction 1; auto. Qed.

Lemma selected_from_entries : forall parentPath entries cs,
  selected parentPath entries cs ->
  Forall (fun c => exists e, In e entries /\ Name c = Os.Name e /\ IsDir c = Os.IsDir e /\
                             Path c = Filepath.Join P parentPath (Os.Name e)) cs.
Proof.
  induction 1 as [|e entries cs _ IH|e entries c cs Hp Hn Hd _ _ IH]; auto.
  - eapply Forall_impl; [|exact IH]. cbn. intros c (e' & Hin & H'). exists e'. tauto.
  - constructor.
    + exists e. cbn. tauto.
    + eapply Forall_impl; [|exact IH]. cbn. intros c' (e' & Hin & H'). exists e'. tauto.
Qed.

(** Every node of a returned tree satisfies [nodeInv]; the tree has at
    most 51 levels below its root. *)
Lemma ScanDirectory_shape : forall path res,
  ScanDirectory P fs s ctx path = Some (Ok res) ->
  Forall nodeInv (nodes (Root res)) /\ (treeHeight (Root res) <= 51)%nat.
Proof.
  intros path res H. apply ScanDirectory_Ok_inv in H as (_ & _ & r & Hr & _ & ->).
  apply scanNodeFuel_shape in Hr as (_ & Hinv & Hh); [|reflexivity].
  cbn [Root]. split; [exact Hinv|]. exact Hh.
Qed.

(** *** The count against the size of the tree *)

(** A context of the standard library: [ctx.Err()] is [Canceled] or
    [DeadlineExceeded]. *)
Definition standard : Prop := forall t e, ctx t = Some e -> isCancellation e = true.

Definition sumOver (w : TreeNode -> Z) (l : list TreeNode) : Z :=
  fold_right (fun c acc => w c + acc) 0 l.

(** The directories [k] levels below [n] ([n] itself for [k = 0]). *)
Fixpoint dirsAt (k : nat) (n : TreeNode) : Z :=
  match k with
  | O => if IsDir n then 1 else 0
  | S k' => sumOver (dirsAt k') (Children n)
  end.

(** The nodes of the tree under [n], met at [depth], that the configured
    limit stopped: the directories at depth [MaxDepth + 1]. *)
Definition uncounted (depth : Z) (n : TreeNode) : Z :=
  if Config.MaxDepth (config s) >=? 0
  then dirsAt (Z.to_nat (Config.MaxDepth (config s) + 1 - depth)) n
  else 0.

Lemma sumOver_app : forall w l1 l2, sumOver w (l1 ++ l2) = sumOver w l1 + sumOver w l2.
Proof.
  intros w l1 l2. unfold sumOver.
  induction l1 as [|c l1 IH]; cbn -[Z.add]; [reflexivity | rewrite IH; lia].
Qed.

Lemma treeSize_sum : forall n, treeSize n = 1 + sumOver treeSize (Children n).
Proof. exact treeSize_eq. Qed.

Lemma scanEntries_count :
  forall (scan : TreeNode -> nat -> option Outcome) (w : TreeNode -> Z),
    (forall c t r, scan c t = Some r -> Children c = [] -> IsDir c = true ->
       (forall e, outErr r = Some e -> isCancellation e = true) /\
       (outErr r = None -> treeSize (outNode r) = outCount r + w (outNode r))) ->
    (forall c, Children c = [] -> IsDir c = false -> w c = 0) ->
    forall entries node count t r,
      scanEntries P ctx scan entries node count t = Some r ->
      outErr r = None ->
      exists cs,
        outNode r = withChildren node (Children node ++ cs) /\
        sumOver treeSize cs = outCount r - count + sumOver w cs.
Proof.
  intros scan w Hscan Hfile.
  induction entries as [|e rest IH]; intros node count t r H Hok; cbn [scanEntries] in H.
  - injection H as <-. exists []. cbn -[Z.add Z.sub].
    rewrite app_nil_r, withChildren_self. split; [reflexivity | lia].
  - destruct (ctx t) as [err|]; [injection H as <-; discriminate|].
    destruct (isProblematicPath _); [now apply IH in H|].
    destruct (Os.IsDir e) eqn:Hd.
    + destruct (scan _ _) as [r1|] eqn:Hr1; [|discriminate].
      apply Hscan in Hr1 as [Hcan Hsize]; [|reflexivity|reflexivity].
      destruct (outErr r1) as [err|].
      { rewrite (Hcan err eq_refl) in H. injection H as <-. discriminate. }
      apply IH in H as (cs & Hn & Hsum); [|exact Hok].
      exists (outNode r1 :: cs). split.
      * rewrite Hn. unfold withChildren. cbn. now rewrite <- app_assoc.
      * change (sumOver treeSize (outNode r1 :: cs))
          with (treeSize (outNode r1) + sumOver treeSize cs).
        change (sumOver w (outNode r1 :: cs)) with (w (outNode r1) + sumOver w cs).
        rewrite Hsize by reflexivity. lia.
    + apply IH in H as (cs & Hn & Hsum); [|exact Hok].
      set (child := mkTreeNode (Filepath.Join P (Path node) (Os.Name e)) (Os.Name e)
                      false []) in *.
      exists (child :: cs). split.
      * rewrite Hn. unfold withChildren. cbn. now rewrite <- app_assoc.
      * change (sumOver treeSize (child :: cs)) with (treeSize child + sumOver treeSize cs).
        change (sumOver w (child :: cs)) with (w child + sumOver w cs).
        rewrite (Hfile child eq_refl eq_refl).
        replace (treeSize child) with 1 by reflexivity. lia.
Qed.

Lemma uncounted_leaf : forall depth n,
  Children n = [] -> IsDir n = true ->
  (Config.MaxDepth (config s) >= 0 -> depth <= Config.MaxDepth (config s) + 1) ->
  uncounted depth n = if depthLimited s depth then 1 else 0.
Proof.
  intros depth n Hc Hd Hle. unfold uncounted, depthLimited.
  destruct (Config.MaxDepth (config s) >=? 0) eqn:Hm; [|reflexivity].
  cbn [andb]. specialize (Hle ltac:(lia)).
  destruct (depth >? Config.MaxDepth (config s)) eqn:Hgt.
  - replace (Config.MaxDepth (config s) + 1 - depth) with 0 by lia.
    cbn. now rewrite Hd.
  - destruct (Z.to_nat (Config.MaxDepth (config s) + 1 - depth)) eqn:Hk; [lia|].
    cbn [dirsAt]. now rewrite Hc.
Qed.

Lemma uncounted_file : forall depth n,
  Children n = [] -> IsDir n = false -> uncounted depth n = 0.
Proof.
  intros depth n Hc Hd. unfold uncounted.
  destruct (_ >=? _); [|reflexivity].
  destruct (Z.to_nat _); cbn [dirsAt]; [now rewrite Hd | now rewrite Hc].
Qed.

Lemma uncounted_children : forall depth n,
  depthLimited s depth = false ->
  (Config.MaxDepth (config s) >= 0 -> depth <= Config.MaxDepth (config s) + 1) ->
  uncounted depth n = sumOver (uncounted (depth + 1)) (Children n).
Proof.
  intros depth n Hlim Hle. unfold uncounted, depthLimited in *.
  destruct (Config.MaxDepth (config s) >=? 0) eqn:Hm; cbn [andb] in Hlim.
  - replace (Z.to_nat (Config.MaxDepth (config s) + 1 - depth))
      with (S (Z.to_nat (Config.MaxDepth (config s) + 1 - (depth + 1)))) by lia.
    reflexivity.
  - unfold sumOver. induction (Children n) as [|c cs IH]; cbn -[Z.add]; [reflexivity|].
    now rewrite <- IH.
Qed.

(** The count a frame returns without error is the size of its tree less
    the directories the configured limit stopped. *)
Lemma scanNodeFuel_count : forall fuel node depth t r,
  standard ->
  scanNodeFuel P fs s ctx fuel node depth t = Some r ->
  Children node = [] -> IsDir node = true ->
  (Config.MaxDepth (config s) >= 0 -> depth <= Config.MaxDepth (config s) + 1) ->
  outErr r = None ->
  treeSize (outNode r) = outCount r + uncounted depth (outNode r).
Proof.
  intros fuel node depth t r Hstd. revert node depth t r.
  induction fuel as [|fuel IH]; intros node depth t r H Hc Hd Hle Hok; [discriminate|].
  assert (Hleaf : forall count,
            count = (if depthLimited s depth then 0 else 1) ->
            treeSize node = count + uncounted depth node).
  { intros count ->. rewrite treeSize_sum, Hc, uncounted_leaf by assumption.
    cbn. now destruct (depthLimited s depth). }
  cbn [scanNodeFuel] in H.
  destruct (ctx t); [injection H as <-; discriminate|].
  fold (depthLimited s depth) in H.
  destruct (depthLimited s depth) eqn:Hlim; [injection H as <-; now apply Hleaf|].
  destruct (depth >? 50); [injection H as <-; now apply Hleaf|].
  destruct (Os.ReadDir fs (Path node)); [|injection H as <-; now apply Hleaf].
  apply (scanEntries_count _ (uncounted (depth + 1))) in H; [|  |  | exact Hok].
  - destruct H as (cs & Hn & Hsum). rewrite Hc in Hn. cbn [app] in Hn.
    rewrite (uncounted_children depth) by assumption.
    rewrite treeSize_sum, Hn. cbn [withChildren Children]. lia.
  - intros c t' r' Hr' Hc' Hd'. split.
    + intros e He. apply scanNodeFuel_stops in Hr' as (_ & _ & _ & Herr).
      apply Herr in He as [_ He]. eapply Hstd; eauto.
    + intros Hok'. apply IH in Hr'; auto.
      unfold depthLimited in Hlim. intros Hm. lia.
  - intros c Hc' Hd'. now apply uncounted_file.
Qed.

(** *** The configured depth limit and the hidden filter *)

Lemma treeHeight_children : forall n h,
  Forall (fun c => (treeHeight c <= h)%nat) (Children n) ->
  (treeHeight n <= S h)%nat.
Proof.
  intros n h H. rewrite treeHeight_eq.
  induction H as [|c cs Hc _ IH]; cbn -[Nat.max]; lia.
Qed.

(** With a configured limit, a tree met at [depth] has no node below
    depth [MaxDepth + 1]. *)
Lemma scanNodeFuel_height_limit : forall fuel node depth t r,
  Config.MaxDepth (config s) >= 0 ->
  scanNodeFuel P fs s ctx fuel node depth t = Some r ->
  Children node = [] ->
  sameHead (outNode r) node /\
  (treeHeight (outNode r) <= Z.to_nat (Config.MaxDepth (config s) + 1 - depth))%nat.
Proof.
  intros fuel node depth t r Hm. revert node depth t r.
  assert (Hleaf : forall node h, Children node = [] ->
            sameHead node node /\ (treeHeight node <= h)%nat).
  { intros node h Hc. split; [now repeat split|].
    rewrite treeHeight_eq, Hc. cbn. lia. }
  induction fuel as [|fuel IH]; intros node depth t r H Hc; [discriminate|].
  cbn [scanNodeFuel] in H.
  destruct (ctx t); [injection H as <-; now apply Hleaf|].
  destruct (_ && _) eqn:Hlim; [injection H as <-; now apply Hleaf|].
  destruct (depth >? 50); [injection H as <-; now apply Hleaf|].
  destruct (Os.ReadDir fs (Path node)); [|injection H as <-; now apply Hleaf].
  apply (scanEntries_shape _
           (fun c => (treeHeight c <=
                      Z.to_nat (Config.MaxDepth (config s) + 1 - (depth + 1)))%nat)) in H.
  - destruct H as (cs & Hn & _ & Hg). rewrite Hc in Hn. cbn [app] in Hn.
    rewrite Hn. split; [now repeat split|].
    replace (Z.to_nat (Config.MaxDepth (config s) + 1 - depth))
      with (S (Z.to_nat (Config.MaxDepth (config s) + 1 - (depth + 1)))) by lia.
    now apply treeHeight_children.
  - intros c t' r' Hr' Hc'. now apply IH in Hr'.
  - intros c Hc' _. now apply Hleaf.
Qed.

Lemma prepareEntries_visible : forall entries e,
  Config.ShowHidden (config s) = false ->
  In e (prepareEntries s entries) ->
  Strings.HasPrefix (Os.Name e) "." = false.
Proof.
  intros entries e Hh. unfold prepareEntries. rewrite Hh.
  assert (Hf : In e (filterHiddenEntries (capEntries entries)) ->
               Strings.HasPrefix (Os.Name e) "." = false).
  { unfold filterHiddenEntries. intros H. apply filter_In in H as [_ H].
    now apply negb_true_iff in H. }
  destruct (Config.SortDirs (config s)); [|exact Hf].
  intros H. apply Hf.
  eapply Permutation_in; [apply Permutation_sym, SortFacts.sortEntries_perm | exact H].
Qed.

End Traversal.

End ScanFacts.

(** ** The specification of the scanner, claim by claim *)
Module ScannerSpec.
Import Scanner ScanFacts.

(** The errors of the checks [ScanDirectory] makes on its argument. *)
Definition rootLevel (res : result ScanResult) : bool :=
  match res with
  | Err ErrEmptyPath | Err (ErrStat _ _) | Err (ErrNotDir _) => true
  | _ => false
  end.

Lemma ScanDirectory_cases :
  forall (P : Filepath.PathOps) (fs : Os.FileSystem) (s : FileTreeScanner)
         (ctx : Context) (path : string),
    (path = "" /\ ScanDirectory P fs s ctx path = Some (Err ErrEmptyPath)) \/
    (path <> "" /\ exists cause, Os.Stat fs path = Err cause /\
       ScanDirectory P fs s ctx path = Some (Err (ErrStat path cause))) \/
    (path <> "" /\ exists info, Os.Stat fs path = Ok info /\ Os.InfoIsDir info = false /\
       ScanDirectory P fs s ctx path = Some (Err (ErrNotDir path))) \/
    (path <> "" /\ exists info, Os.Stat fs path = Ok info /\ Os.InfoIsDir info = true /\
       ((exists r, ScanDirectory P fs s ctx path = Some (Ok r)) \/
        (exists cause k, ScanDirectory P fs s ctx path = Some (Err (ErrScan cause)) /\
                         ctx k = Some cause))).
Proof.
  intros P fs s ctx path. unfold ScanDirectory, ScanDirectoryRun.
  destruct (String.eqb_spec path "") as [->|Hne]; [now left|].
  right. destruct (Os.Stat fs path) as [info|err]; [|left; eauto].
  right. destruct (Os.InfoIsDir info) eqn:Hdir; cbn [negb]; [|left; eauto].
  right. split; [exact Hne|]. exists info. repeat split; auto.
  destruct (scanNode_total P fs s ctx (mkTreeNode path (Filepath.Base P path) true []) 0 O)
    as [r Hr].
  rewrite Hr.
  pose proof (scanNodeFuel_stops P fs s ctx _ _ _ _ _ Hr) as (_ & _ & _ & Herr).
  destruct (outErr r) as [err|] eqn:He; cbn; [right | left; eauto].
  destruct (Herr err eq_refl) as [_ Hk]. eauto.
Qed.

(** C4. [ScanDirectory] returns the input error exactly for the empty path,
    the stat error (wrapping the cause) exactly for a non-empty path whose
    [os.Stat] fails, the not-a-directory error exactly for a non-empty path
    that names something else than a directory; an error result carries no
    tree. For a non-empty path naming a directory the call returns, and
    what it returns is none of these three errors: it is a result, or the
    scan error wrapping an answer of the context. *)
Theorem ScanDirectory_root_errors :
  forall (P : Filepath.PathOps) (fs : Os.FileSystem) (s : FileTreeScanner)
         (ctx : Context) (path : string),
    (path = "" <-> ScanDirectory P fs s ctx path = Some (Err ErrEmptyPath)) /\
    (forall cause,
        (path <> "" /\ Os.Stat fs path = Err cause) <->
        ScanDirectory P fs s ctx path = Some (Err (ErrStat path cause))) /\
    ((path <> "" /\ exists info, Os.Stat fs path = Ok info /\ Os.InfoIsDir info = false) <->
     ScanDirectory P fs s ctx path = Some (Err (ErrNotDir path))) /\
    ((path <> "" /\ exists info, Os.Stat fs path = Ok info /\ Os.InfoIsDir info = true) <->
     exists res, ScanDirectory P fs s ctx path = Some res /\ rootLevel res = false) /\
    (forall res, ScanDirectory P fs s ctx path = Some res -> rootLevel res = false ->
       (exists r, res = Ok r) \/
       (exists cause k, res = Err (ErrScan cause) /\ ctx k = Some cause)).
Proof.
  intros P fs s ctx path.
  destruct (ScanDirectory_cases P fs s ctx path)
    as [[Hp Hr] | [(Hp & c & Hs & Hr) | [(Hp & i & Hs & Hd & Hr)
         | (Hp & i & Hs & Hd & [[r Hr] | (c & k & Hr & Hk)])]]];
    rewrite Hr; repeat split; intros;
    repeat match goal with
      | H : _ /\ _ |- _ => destruct H
      | H : exists _, _ |- _ => destruct H
      | H : Some _ = Some _ |- _ => injection H as H; try subst
      end;
    cbn in *; try congruence; eauto 8.
Qed.

(** The node the loop creates for an entry. *)
Definition childOf (P : Filepath.PathOps) (parent : TreeNode) (entry : Os.DirEntry) : TreeNode :=
  mkTreeNode (Filepath.Join P (Path parent) (Os.Name entry)) (Os.Name entry)
    (Os.IsDir entry) [].

(** C3. A directory entry whose listing fails, met in the loop of its
    parent at [depth] with the context open and the depth limits not yet
    reached: its frame returns count 1 and no error, with the node left
    without children; the parent's loop appends that leaf, adds 1 to its
    count and goes on with the remaining entries. *)
Theorem unreadable_directory_is_leaf :
  forall (P : Filepath.PathOps) (fs : Os.FileSystem) (s : FileTreeScanner) (ctx : Context)
         (parent : TreeNode) (entry : Os.DirEntry) (rest : list Os.DirEntry)
         (count depth : Z) (t : nat),
    Os.IsDir entry = true ->
    isProblematicPath (Path (childOf P parent entry)) = false ->
    ctx t = None ->
    ctx (S t) = None ->
    depthLimited s (depth + 1) = false ->
    depth + 1 <= 50 ->
    Os.ReadDir fs (Path (childOf P parent entry)) = None ->
    scanNode P fs s ctx (childOf P parent entry) (depth + 1) (S t) =
      Some (mkOutcome (childOf P parent entry) 1 None (S (S t))) /\
    scanEntries P ctx (fun c => scanNode P fs s ctx c (depth + 1))
      (entry :: rest) parent count t =
    scanEntries P ctx (fun c => scanNode P fs s ctx c (depth + 1))
      rest (appendChild parent (childOf P parent entry)) (count + 1) (S (S t)).
Proof.
  intros P fs s ctx parent entry rest count depth t Hdir Hprob Ht HSt Hlim Hdepth Hread.
  assert (Hframe : scanNode P fs s ctx (childOf P parent entry) (depth + 1) (S t) =
                   Some (mkOutcome (childOf P parent entry) 1 None (S (S t)))).
  { rewrite scanNode_eq, HSt, Hlim, Hread.
    replace (depth + 1 >? 50) with false by lia. reflexivity. }
  split; [exact Hframe|].
  cbn [scanEntries]. rewrite Ht.
  unfold childOf in *. cbn [Path] in Hprob. rewrite Hprob, Hdir in *.
  rewrite Hframe. reflexivity.
Qed.

(** C9. An entry whose joined child path contains a reserved substring is
    passed over by the loop: the node, its children and the count are as
    before, whatever the recursive call would do with it; and in a
    returned tree no child of any node has a path containing a reserved
    substring. *)
Theorem problematic_paths_are_skipped :
  forall (P : Filepath.PathOps) (fs : Os.FileSystem) (s : FileTreeScanner) (ctx : Context),
    (forall scan entry rest node count t reserved,
        In reserved problematicPaths ->
        Strings.Contains (Filepath.Join P (Path node) (Os.Name entry)) reserved = true ->
        ctx t = None ->
        scanEntries P ctx scan (entry :: rest) node count t =
        scanEntries P ctx scan rest node count (S t)) /\
    (forall path res n c reserved,
        ScanDirectory P fs s ctx path = Some (Ok res) ->
        In n (nodes (Root res)) ->
        In c (Children n) ->
        In reserved problematicPaths ->
        Strings.Contains (Path c) reserved = false).
Proof.
  intros P fs s ctx. split.
  - intros scan entry rest node count t reserved Hin Hc Ht.
    cbn [scanEntries]. rewrite Ht.
    assert (Hp : isProblematicPath (Filepath.Join P (Path node) (Os.Name entry)) = true).
    { unfold isProblematicPath. apply existsb_exists. eauto. }
    now rewrite Hp.
  - intros path res n c reserved Hres Hn Hc Hin.
    apply ScanDirectory_shape in Hres as [Hinv _].
    rewrite Forall_forall in Hinv. apply Hinv in Hn.
    apply selected_not_problematic in Hn. rewrite Forall_forall in Hn.
    specialize (Hn c Hc). unfold isProblematicPath in Hn.
    destruct (Strings.Contains (Path c) reserved) eqn:E; [|reflexivity].
    assert (existsb (fun p => Strings.Contains (Path c) p) problematicPaths = true)
      by (apply existsb_exists; eauto).
    congruence.
Qed.

(** C2. A cancellation or deadline answer of the context ends the scan:
    a frame polled at its start returns the error at once; a loop whose
    recursive call returned the error returns it without looking at the
    remaining entries, and so does a loop polled at the start of an
    iteration; and when any poll made during [ScanDirectory] is
    answered so, that poll is the last one made and the call returns the
    scan error wrapping the answer, not a result. *)
Theorem cancellation_propagates :
  forall (P : Filepath.PathOps) (fs : Os.FileSystem) (s : FileTreeScanner) (ctx : Context)
         (e : error),
    isCancellation e = true ->
    (forall node depth t,
        ctx t = Some e ->
        scanNode P fs s ctx node depth t = Some (mkOutcome node 0 (Some e) (S t))) /\
    (forall scan entry rest node count t,
        ctx t = Some e ->
        scanEntries P ctx scan (entry :: rest) node count t =
        Some (mkOutcome node count (Some e) (S t))) /\
    (forall scan entry rest node count t r,
        ctx t = None ->
        isProblematicPath (Path (childOf P node entry)) = false ->
        Os.IsDir entry = true ->
        scan (childOf P node entry) (S t) = Some r ->
        outErr r = Some e ->
        scanEntries P ctx scan (entry :: rest) node count t =
        Some (mkOutcome (appendChild node (outNode r)) count (Some e) (outClock r))) /\
    (forall path res clock k,
        ScanDirectoryRun P fs s ctx path = Some (res, clock) ->
        (k < clock)%nat ->
        ctx k = Some e ->
        res = Err (ErrScan e) /\ clock = S k).
Proof.
  intros P fs s ctx e Hcan. split; [|split; [|split]].
  - intros node depth t Ht. now rewrite scanNode_eq, Ht.
  - intros scan entry rest node count t Ht. cbn [scanEntries]. now rewrite Ht.
  - intros scan entry rest node count t r Ht Hprob Hdir Hscan Herr.
    cbn [scanEntries]. rewrite Ht.
    unfold childOf in *. cbn [Path] in Hprob. rewrite Hprob, Hdir in *.
    now rewrite Hscan, Herr, Hcan.
  - intros path res clock k Hrun Hk Hctx. unfold ScanDirectoryRun in Hrun.
    destruct (path =? "")%string; [injection Hrun as <- <-; lia|].
    destruct (Os.Stat fs path) as [info|err]; [|injection Hrun as <- <-; lia].
    destruct (negb (Os.InfoIsDir info)); [injection Hrun as <- <-; lia|].
    destruct (scanNode _ _ _ _ _ _ _) as [r|] eqn:Hr; [|discriminate].
    apply scanNodeFuel_stops in Hr as (_ & _ & Hobs & _).
    assert (Hclock : clock = outClock r)
      by (destruct (outErr r); now injection Hrun as <- <-).
    subst clock.
    destruct (Hobs k e ltac:(lia) Hctx Hcan) as [Hend Herr].
    rewrite Herr in Hrun. injection Hrun as <-. auto.
Qed.

(** The kind and name of a node, as an entry. *)
Definition entryOf (c : TreeNode) : Os.DirEntry := Os.mkDirEntry (Name c) (IsDir c).

Definition nameLe (a b : TreeNode) : Prop := (Name a <=? Name b)%string = true.

(** Directories, sorted by name, then files, sorted by name. *)
Definition dirsFirstSorted (cs : list TreeNode) : Prop :=
  exists ds fs,
    cs = ds ++ fs /\
    Forall (fun c => IsDir c = true) ds /\
    Forall (fun c => IsDir c = false) fs /\
    StronglySorted nameLe ds /\
    StronglySorted nameLe fs.

Lemma selected_sorted : forall P parentPath entries cs,
  selected P parentPath entries cs ->
  StronglySorted SortFacts.entryLe entries ->
  StronglySorted (fun a b => SortFacts.entryLe (entryOf a) (entryOf b)) cs.
Proof.
  intros P parentPath entries cs Hsel.
  induction Hsel as [|e entries cs _ IH|e entries c cs Hp Hn Hd _ Hsel IH]; intros Hs.
  - constructor.
  - apply StronglySorted_inv in Hs as [Hs _]. auto.
  - apply StronglySorted_inv in Hs as [Hs He]. constructor; [auto|].
    apply selected_from_entries in Hsel.
    rewrite Forall_forall in He |- *. rewrite Forall_forall in Hsel.
    intros c' Hc'. destruct (Hsel c' Hc') as (e' & Hin & Hn' & Hd' & _).
    specialize (He e' Hin). unfold entryOf. rewrite Hn, Hd, Hn', Hd'.
    now destruct e, e'.
Qed.

Lemma sorted_dirs_first : forall cs,
  StronglySorted (fun a b => SortFacts.entryLe (entryOf a) (entryOf b)) cs ->
  dirsFirstSorted cs.
Proof.
  induction 1 as [|c cs _ (ds & fs & -> & Hds & Hfs & Sds & Sfs) Hall].
  - exists [], []. repeat split; constructor.
  - apply Forall_app in Hall as [Hall_d Hall_f].
    assert (Hle : forall l kind,
              IsDir c = kind -> Forall (fun x => IsDir x = kind) l ->
              Forall (fun b => SortFacts.entryLe (entryOf c) (entryOf b)) l ->
              Forall (nameLe c) l).
    { intros l kind Hc Hl Hal. rewrite Forall_forall in *.
      intros x Hx. specialize (Hl x Hx). specialize (Hal x Hx).
      unfold SortFacts.entryLe, less, entryOf in Hal. cbn in Hal.
      rewrite Hc, Hl, Bool.eqb_reflx in Hal. cbn in Hal.
      now apply StringFacts.not_ltb_leb. }
    destruct (IsDir c) eqn:Hc.
    + exists (c :: ds), fs. repeat split; auto.
      constructor; [exact Sds|]. now apply (Hle ds true).
    + destruct ds as [|d ds].
      * exists [], (c :: fs). repeat split; auto.
        constructor; [exact Sfs|]. now apply (Hle fs false).
      * exfalso. apply Forall_inv in Hall_d. apply Forall_inv in Hds.
        unfold SortFacts.entryLe, less, entryOf in Hall_d. cbn in Hall_d.
        rewrite Hc, Hds in Hall_d. discriminate.
Qed.

Lemma prepareEntries_sorted : forall s entries,
  Config.SortDirs (config s) = true ->
  StronglySorted SortFacts.entryLe (prepareEntries s entries).
Proof.
  intros s entries Hs. unfold prepareEntries. rewrite Hs.
  apply SortFacts.sortEntries_sorted.
Qed.

(** C7. With [SortDirs] set, the children of every node of a returned
    tree are its directories in non-decreasing byte-wise order of name
    followed by its files in non-decreasing byte-wise order of name. *)
Theorem children_sorted_dirs_first :
  forall (P : Filepath.PathOps) (fs : Os.FileSystem) (s : FileTreeScanner) (ctx : Context)
         (path : string) (res : ScanResult) (n : TreeNode),
    Config.SortDirs (config s) = true ->
    ScanDirectory P fs s ctx path = Some (Ok res) ->
    In n (nodes (Root res)) ->
    dirsFirstSorted (Children n).
Proof.
  intros P fs s ctx path res n Hsort Hres Hn.
  apply ScanDirectory_shape in Hres as [Hinv _].
  rewrite Forall_forall in Hinv. apply Hinv in Hn. unfold nodeInv in Hn.
  apply sorted_dirs_first. eapply selected_sorted; [exact Hn|].
  unfold listing. destruct (Os.ReadDir fs (Path n)).
  - now apply prepareEntries_sorted.
  - constructor.
Qed.

(** The filesystem [fs] with the listing of [dir] replaced by [entries]. *)
Definition relist (fs : Os.FileSystem) (dir : string) (entries : list Os.DirEntry)
  : Os.FileSystem :=
  Os.mkFileSystem (Os.Stat fs)
    (fun path => if (path =? dir)%string then Some entries else Os.ReadDir fs path).

(** What follows the size cap: the hidden filter, then the sort. *)
Definition filterAndSort (s : FileTreeScanner) (entries : list Os.DirEntry)
  : list Os.DirEntry :=
  let entries := if Config.ShowHidden (config s) then entries
                 else filterHiddenEntries entries in
  if Config.SortDirs (config s) then sortEntries entries else entries.

Lemma capEntries_large : forall entries,
  10000 < Z.of_nat (List.length entries) ->
  capEntries entries = firstn 1000 entries /\
  List.length (capEntries entries) = Z.to_nat 1000.
Proof.
  intros entries H. unfold capEntries.
  replace (10000 <? Z.of_nat (List.length entries)) with true by lia.
  split; [reflexivity|]. rewrite length_firstn. lia.
Qed.

Lemma capEntries_small : forall entries,
  Z.of_nat (List.length entries) <= 10000 -> capEntries entries = entries.
Proof.
  intros entries H. unfold capEntries.
  now replace (10000 <? Z.of_nat (List.length entries)) with false by lia.
Qed.

Lemma capEntries_idem : forall entries, capEntries (capEntries entries) = capEntries entries.
Proof.
  intros entries.
  destruct (Z.lt_ge_cases 10000 (Z.of_nat (List.length entries))) as [H|H].
  - destruct (capEntries_large _ H) as [_ Hl].
    apply capEntries_small. rewrite Hl. lia.
  - now rewrite !(capEntries_small entries H).
Qed.

Lemma scanEntries_ext : forall P ctx scan1 scan2,
  (forall c t, scan1 c t = scan2 c t) ->
  forall entries node count t,
    scanEntries P ctx scan1 entries node count t =
    scanEntries P ctx scan2 entries node count t.
Proof.
  intros P ctx scan1 scan2 Hext.
  induction entries as [|e rest IH]; intros node count t; cbn [scanEntries]; [reflexivity|].
  destruct (ctx t); [reflexivity|].
  destruct (isProblematicPath _); [apply IH|].
  destruct (Os.IsDir e); [|apply IH].
  rewrite Hext. destruct (scan2 _ _) as [r|]; [|reflexivity].
  destruct (outErr r) as [err|]; [destruct (isCancellation err)|];
    first [reflexivity | apply IH].
Qed.

Lemma scanNodeFuel_relist : forall P fs s ctx dir entries,
  Os.ReadDir fs dir = Some entries ->
  forall fuel node depth t,
    scanNodeFuel P (relist fs dir (capEntries entries)) s ctx fuel node depth t =
    scanNodeFuel P fs s ctx fuel node depth t.
Proof.
  intros P fs s ctx dir entries Hdir.
  induction fuel as [|fuel IH]; intros node depth t; [reflexivity|].
  cbn [scanNodeFuel].
  destruct (ctx t); [reflexivity|].
  destruct (_ && _); [reflexivity|].
  destruct (depth >? 50); [reflexivity|].
  assert (Hread : option_map (prepareEntries s)
                    (Os.ReadDir (relist fs dir (capEntries entries)) (Path node)) =
                  option_map (prepareEntries s) (Os.ReadDir fs (Path node))).
  { cbn [relist Os.ReadDir]. destruct (String.eqb_spec (Path node) dir) as [->|_]; [|reflexivity].
    rewrite Hdir. cbn [option_map]. unfold prepareEntries. now rewrite capEntries_idem. }
  destruct (Os.ReadDir (relist fs dir (capEntries entries)) (Path node)) as [es1|];
    destruct (Os.ReadDir fs (Path node)) as [es2|]; cbn [option_map] in Hread;
    try discriminate; [|reflexivity].
  injection Hread as ->. apply scanEntries_ext. intros c t'. apply IH.
Qed.

(** C6. For a directory whose listing succeeds: above 10000 entries the
    cap keeps exactly the first 1000, in enumeration order; up to 10000 it
    keeps them all; the loop of the directory runs over the kept entries,
    filtered and sorted; and every frame, and the whole scan, is what it
    would be if the listing of that directory were the kept entries. *)
Theorem size_cap_retains_first_entries :
  forall (P : Filepath.PathOps) (fs : Os.FileSystem) (s : FileTreeScanner) (ctx : Context)
         (dir : string) (entries : list Os.DirEntry),
    Os.ReadDir fs dir = Some entries ->
    (10000 < Z.of_nat (List.length entries) ->
       capEntries entries = firstn 1000 entries /\
       List.length (capEntries entries) = Z.to_nat 1000) /\
    (Z.of_nat (List.length entries) <= 10000 -> capEntries entries = entries) /\
    (forall node depth t,
        Path node = dir -> ctx t = None -> depthLimited s depth = false -> depth <= 50 ->
        scanNode P fs s ctx node depth t =
        scanEntries P ctx (fun c => scanNode P fs s ctx c (depth + 1))
          (filterAndSort s (capEntries entries)) node 1 (S t)) /\
    (forall node depth t,
        scanNode P (relist fs dir (capEntries entries)) s ctx node depth t =
        scanNode P fs s ctx node depth t) /\
    (forall path,
        ScanDirectoryRun P (relist fs dir (capEntries entries)) s ctx path =
        ScanDirectoryRun P fs s ctx path).
Proof.
  intros P fs s ctx dir entries Hdir.
  split; [apply capEntries_large|]. split; [apply capEntries_small|].
  assert (Hframe : forall node depth t,
            scanNode P (relist fs dir (capEntries entries)) s ctx node depth t =
            scanNode P fs s ctx node depth t)
    by (intros; now apply scanNodeFuel_relist).
  split; [|split; [exact Hframe|]].
  - intros node depth t Hpath Ht Hlim Hdepth.
    rewrite scanNode_eq, Ht, Hlim, Hpath, Hdir.
    replace (depth >? 50) with false by lia. reflexivity.
  - intros path. unfold ScanDirectoryRun. cbn [relist Os.Stat]. now rewrite Hframe.
Qed.

Lemma prepareEntries_incl : forall s entries e,
  In e (prepareEntries s entries) -> In e entries.
Proof.
  intros s entries e. unfold prepareEntries.
  assert (Hcap : In e (capEntries entries) -> In e entries).
  { unfold capEntries. destruct (_ <? _); [|auto].
    intros H. rewrite <- (firstn_skipn 1000 entries). apply in_or_app. now left. }
  assert (Hfilter : In e (if Config.ShowHidden (config s) then capEntries entries
                          else filterHiddenEntries (capEntries entries)) -> In e entries).
  { destruct (Config.ShowHidden (config s)); [exact Hcap|].
    unfold filterHiddenEntries. intros H. apply filter_In in H. tauto. }
  destruct (Config.SortDirs (config s)); [|exact Hfilter].
  intros H. apply Hfilter.
  eapply Permutation_in; [apply Permutation_sym, SortFacts.sortEntries_perm | exact H].
Qed.

Lemma scanEntries_all_skipped : forall P ctx scan entries node count t r,
  (forall e, In e entries ->
     isProblematicPath (Filepath.Join P (Path node) (Os.Name e)) = true) ->
  scanEntries P ctx scan entries node count t = Some r ->
  outNode r = node /\ outCount r = count.
Proof.
  intros P ctx scan.
  induction entries as [|e rest IH]; intros node count t r Hall H; cbn [scanEntries] in H.
  - now injection H as <-.
  - destruct (ctx t); [now injection H as <-|].
    rewrite (Hall e (or_introl eq_refl)) in H.
    eapply IH; [|exact H]. intros e' He'. apply Hall. now right.
Qed.

Lemma depthLimited_root : forall s, depthLimited s 0 = false.
Proof. intros s. unfold depthLimited. lia. Qed.

(** C10, as amended. Let the root path contain a reserved substring, and
    let the joined path of every entry of the root have the root path as a
    prefix. Then a [ScanDirectory] that returns a result returns the root
    without children and a count of 1, whatever the directory holds; and
    it does return a result when the path names a directory and the
    context stays open. *)
Theorem reserved_root_yields_bare_root :
  forall (P : Filepath.PathOps) (fs : Os.FileSystem) (s : FileTreeScanner) (ctx : Context)
         (path reserved : string),
    In reserved problematicPaths ->
    Strings.Contains path reserved = true ->
    (forall entries e,
        Os.ReadDir fs path = Some entries -> In e entries ->
        Strings.HasPrefix (Filepath.Join P path (Os.Name e)) path = true) ->
    (forall res,
        ScanDirectory P fs s ctx path = Some (Ok res) ->
        Children (Root res) = [] /\ NodeCount res = 1) /\
    (path <> "" ->
     (exists info, Os.Stat fs path = Ok info /\ Os.InfoIsDir info = true) ->
     (forall t, ctx t = None) ->
     exists res, ScanDirectory P fs s ctx path = Some (Ok res)).
Proof.
  intros P fs s ctx path reserved Hin Hc Hjoin. split.
  - intros res Hres.
    apply ScanDirectory_Ok_inv in Hres as (_ & _ & r & Hr & Herr & ->).
    cbn [Root NodeCount].
    rewrite scanNode_eq, depthLimited_root in Hr.
    destruct (ctx O); [injection Hr as <-; discriminate|].
    change (0 >? 50) with false in Hr. cbn [rootNode Path] in Hr.
    destruct (Os.ReadDir fs path) as [entries|] eqn:Hread; [|now injection Hr as <-].
    apply scanEntries_all_skipped in Hr as [-> ->]; [now split|].
    intros e He. apply prepareEntries_incl in He. cbn [rootNode Path].
    unfold isProblematicPath. apply existsb_exists. exists reserved. split; [exact Hin|].
    eapply StringFacts.Contains_of_prefix; [|exact Hc]. eapply Hjoin; eauto.
  - intros Hne Hstat Hopen.
    destruct (ScanDirectory_cases P fs s ctx path)
      as [[Hp _] | [(_ & c & Hs & _) | [(_ & i & Hs & Hd & _)
           | (_ & i & _ & _ & [[r Hr] | (c & k & _ & Hk)])]]].
    + contradiction.
    + destruct Hstat as (info & Hi & _). congruence.
    + destruct Hstat as (info & Hi & Hd'). congruence.
    + eauto.
    + rewrite Hopen in Hk. discriminate.
Qed.

(** *** Instances *)

Lemma unreadable_directory_witness :
  scanNode Filepath.unix Fixtures.locked Fixtures.defaults Fixtures.background
    (childOf Filepath.unix (rootNode Filepath.unix "root") (Fixtures.dir "locked"))
    (0 + 1) 1 =
    Some (mkOutcome
            (childOf Filepath.unix (rootNode Filepath.unix "root") (Fixtures.dir "locked"))
            1 None 2) /\
  scanEntries Filepath.unix Fixtures.background
    (fun c => scanNode Filepath.unix Fixtures.locked Fixtures.defaults Fixtures.background
                c (0 + 1))
    [Fixtures.dir "locked"; Fixtures.file "a.txt"] (rootNode Filepath.unix "root") 1 0 =
  scanEntries Filepath.unix Fixtures.background
    (fun c => scanNode Filepath.unix Fixtures.locked Fixtures.defaults Fixtures.background
                c (0 + 1))
    [Fixtures.file "a.txt"]
    (appendChild (rootNode Filepath.unix "root")
       (childOf Filepath.unix (rootNode Filepath.unix "root") (Fixtures.dir "locked")))
    (1 + 1) 2.
Proof.
  apply (unreadable_directory_is_leaf Filepath.unix Fixtures.locked Fixtures.defaults
           Fixtures.background (rootNode Filepath.unix "root") (Fixtures.dir "locked")
           [Fixtures.file "a.txt"] 1 0 0); try reflexivity.
  lia.
Defined.

Lemma cancellation_witness :
  exists res clock,
    ScanDirectoryRun Filepath.unix Fixtures.scenario Fixtures.defaults
      (Fixtures.doneFrom 2 Canceled) "root" = Some (res, clock) /\
    res = Err (ErrScan Canceled) /\ clock = 3%nat.
Proof.
  eexists. eexists. split; [vm_compute; reflexivity|].
  apply (proj2 (proj2 (proj2 (cancellation_propagates Filepath.unix Fixtures.scenario
                         Fixtures.defaults (Fixtures.doneFrom 2 Canceled) Canceled eq_refl)))
           "root" _ _ 2%nat); [vm_compute; reflexivity | lia | reflexivity].
Defined.

Lemma scenario_scanned :
  ScanDirectory Filepath.unix Fixtures.scenario Fixtures.defaults Fixtures.background "root" =
  Some (Ok (mkScanResult "root" "" 5 None Fixtures.scenarioTree)).
Proof. vm_compute. reflexivity. Qed.

Lemma children_sorted_witness :
  dirsFirstSorted (Children Fixtures.scenarioTree) /\
  dirsFirstSorted (Children (mkTreeNode "root/b" "b" true
        [ mkTreeNode "root/b/a.txt" "a.txt" false [];
          mkTreeNode "root/b/z.txt" "z.txt" false [] ])).
Proof.
  split;
    apply (children_sorted_dirs_first Filepath.unix Fixtures.scenario Fixtures.defaults
             Fixtures.background "root" (mkScanResult "root" "" 5 None Fixtures.scenarioTree));
    try reflexivity; try exact scenario_scanned.
  - left. reflexivity.
  - right. left. reflexivity.
Defined.

Lemma size_cap_witness :
  (capEntries Fixtures.manyEntries = firstn 1000 Fixtures.manyEntries /\
   List.length (capEntries Fixtures.manyEntries) = Z.to_nat 1000) /\
  ScanDirectoryRun Filepath.unix
    (relist Fixtures.crowded "big" (capEntries Fixtures.manyEntries))
    Fixtures.defaults Fixtures.background "big" =
  ScanDirectoryRun Filepath.unix Fixtures.crowded Fixtures.defaults Fixtures.background "big".
Proof.
  pose proof (size_cap_retains_first_entries Filepath.unix Fixtures.crowded Fixtures.defaults
                Fixtures.background "big" Fixtures.manyEntries eq_refl)
    as (Hlarge & _ & _ & _ & Hscan).
  split; [apply Hlarge; vm_compute; reflexivity | apply Hscan].
Defined.

(** A directory of 10001 files is counted as 1000 files and itself. *)
Lemma crowded_scanned :
  option_map (fun res => match res with Ok r => NodeCount r | Err _ => -1 end)
    (ScanDirectory Filepath.unix Fixtures.crowded Fixtures.defaults Fixtures.background "big")
  = Some 1001.
Proof. vm_compute. reflexivity. Qed.

(** C10, as stated, fails where joining cleans the reserved name away:
    scanned as [Recovery/..], a directory keeps its file as a child. *)
Lemma reserved_root_counterexample :
  In "Recovery" problematicPaths /\
  Strings.Contains "Recovery/.." "Recovery" = true /\
  Filepath.Join Filepath.unix "Recovery/.." "a.txt" = "a.txt" /\
  ScanDirectory Filepath.unix Fixtures.aboveRecovery Fixtures.defaults Fixtures.background
    "Recovery/.." =
  Some (Ok (mkScanResult "Recovery/.." "" 2 None
              (mkTreeNode "Recovery/.." ".." true
                 [mkTreeNode "a.txt" "a.txt" false []]))).
Proof.
  split; [cbn; tauto|]. repeat split; vm_compute; reflexivity.
Qed.

Lemma reserved_root_witness :
  (forall res,
      ScanDirectory Filepath.unix Fixtures.belowRecovery Fixtures.defaults
        Fixtures.background "/data/Recovery" = Some (Ok res) ->
      Children (Root res) = [] /\ NodeCount res = 1) /\
  ("/data/Recovery" <> "" ->
   (exists info, Os.Stat Fixtures.belowRecovery "/data/Recovery" = Ok info /\
                 Os.InfoIsDir info = true) ->
   (forall t, Fixtures.background t = None) ->
   exists res,
     ScanDirectory Filepath.unix Fixtures.belowRecovery Fixtures.defaults
       Fixtures.background "/data/Recovery" = Some (Ok res)).
Proof.
  apply (reserved_root_yields_bare_root Filepath.unix Fixtures.belowRecovery
           Fixtures.defaults Fixtures.background "/data/Recovery" "Recovery").
  - cbn. tauto.
  - vm_compute. reflexivity.
  - intros entries e [= <-] [<-|[<-|[]]]; vm_compute; reflexivity.
Defined.

(** The scan of a directory below [Recovery]: nothing of its content. *)
Lemma belowRecovery_scanned :
  ScanDirectory Filepath.unix Fixtures.belowRecovery Fixtures.defaults Fixtures.background
    "/data/Recovery" =
  Some (Ok (mkScanResult "/data/Recovery" "" 1 None
              (mkTreeNode "/data/Recovery" "Recovery" true []))).
Proof. vm_compute. reflexivity. Qed.

Lemma problematic_paths_witness :
  scanEntries Filepath.unix Fixtures.background (fun _ _ => None)
    [Fixtures.dir "$Recycle.Bin"; Fixtures.file "a.txt"] (rootNode Filepath.unix "C:") 1 0 =
  scanEntries Filepath.unix Fixtures.background (fun _ _ => None)
    [Fixtures.file "a.txt"] (rootNode Filepath.unix "C:") 1 1.
Proof.
  apply (proj1 (problematic_paths_are_skipped Filepath.unix Fixtures.scenario
                  Fixtures.defaults Fixtures.background)
           (fun _ _ => None) (Fixtures.dir "$Recycle.Bin") [Fixtures.file "a.txt"]
           (rootNode Filepath.unix "C:") 1 0%nat "$Recycle.Bin").
  - cbn. tauto.
  - vm_compute. reflexivity.
  - reflexivity.
Defined.

(** A directory stopped by the configured depth limit: the loop of its
    parent appends it and leaves the count as it was. *)
Lemma depth_limited_child_uncounted :
  forall (P : Filepath.PathOps) (fs : Os.FileSystem) (s : FileTreeScanner) (ctx : Context)
         (parent : TreeNode) (entry : Os.DirEntry) (rest : list Os.DirEntry)
         (count depth : Z) (t : nat),
    Os.IsDir entry = true ->
    isProblematicPath (Path (childOf P parent entry)) = false ->
    ctx t = None ->
    ctx (S t) = None ->
    depthLimited s (depth + 1) = true ->
    scanEntries P ctx (fun c => scanNode P fs s ctx c (depth + 1))
      (entry :: rest) parent count t =
    scanEntries P ctx (fun c => scanNode P fs s ctx c (depth + 1))
      rest (appendChild parent (childOf P parent entry)) (count + 0) (S (S t)).
Proof.
  intros P fs s ctx parent entry rest count depth t Hdir Hprob Ht HSt Hlim.
  cbn [scanEntries]. rewrite Ht.
  unfold childOf in *. cbn [Path] in Hprob. rewrite Hprob, Hdir in *.
  rewrite scanNode_eq, HSt, Hlim. reflexivity.
Qed.

(** C1 at a failing input: the scenario of the specification scanned with
    [MaxDepth = 0]. The directory [b] is a child of the returned root and
    is not counted: the count is 2, the tree has 3 nodes. *)
Theorem NodeCount_misses_depth_limited_directory :
  ScanDirectory Filepath.unix Fixtures.scenario (Fixtures.withMaxDepth 0)
    Fixtures.background "root" =
  Some (Ok (mkScanResult "root" "" 2 None
              (mkTreeNode "root" "root" true
                 [ mkTreeNode "root/b" "b" true [];
                   mkTreeNode "root/a.log" "a.log" false [] ]))) /\
  treeSize (mkTreeNode "root" "root" true
              [ mkTreeNode "root/b" "b" true [];
                mkTreeNode "root/a.log" "a.log" false [] ]) = 3.
Proof.
  split.
  - unfold ScanDirectory, ScanDirectoryRun. vm_compute. reflexivity.
  - reflexivity.
Qed.

(** The frame of a node deeper than the ceiling: the node is returned as
    it came, without its directory being listed; it counts once unless the
    configured limit has stopped the frame before, and then not at all. *)
Lemma ceiling_frame :
  forall (P : Filepath.PathOps) (fs : Os.FileSystem) (s : FileTreeScanner) (ctx : Context)
         (node : TreeNode) (depth : Z) (t : nat),
    depth > 50 ->
    ctx t = None ->
    scanNode P fs s ctx node depth t =
    Some (mkOutcome node (if depthLimited s depth then 0 else 1) None (S t)).
Proof.
  intros P fs s ctx node depth t Hd Ht. rewrite scanNode_eq, Ht.
  destruct (depthLimited s depth); [reflexivity|].
  now replace (depth >? 50) with true by lia.
Qed.

(** C5 at a failing input: an endless chain of directories scanned with
    [MaxDepth = 50]. The frame of the node at depth 51 returns the count
    0, not 1; the scan counts 51 nodes and returns a tree of 52, 51 levels
    high. *)
Theorem ceiling_node_uncounted_at_limit_50 :
  (forall node t,
      scanNode Filepath.unix Fixtures.chain (Fixtures.withMaxDepth 50) Fixtures.background
        node 51 t = Some (mkOutcome node 0 None (S t))) /\
  option_map
    (fun res => match res with
                | Ok r => (NodeCount r, treeSize (Root r), treeHeight (Root r))
                | Err _ => (-1, -1, O)
                end)
    (ScanDirectory Filepath.unix Fixtures.chain (Fixtures.withMaxDepth 50)
       Fixtures.background "x") = Some (51, 52, 51%nat).
Proof.
  split.
  - intros node t. now rewrite ceiling_frame.
  - vm_compute. reflexivity.
Qed.

(** *** Further properties of a returned tree *)

(** Under a context of the standard library, the count of a successful
    scan is the number of nodes of the returned tree less the directories
    at depth [MaxDepth + 1], the ones the configured limit stopped. *)
Theorem NodeCount_plus_uncounted :
  forall (P : Filepath.PathOps) (fs : Os.FileSystem) (s : FileTreeScanner) (ctx : Context)
         (path : string) (res : ScanResult),
    standard ctx ->
    ScanDirectory P fs s ctx path = Some (Ok res) ->
    treeSize (Root res) = NodeCount res + uncounted s 0 (Root res).
Proof.
  intros P fs s ctx path res Hstd Hres.
  apply ScanDirectory_Ok_inv in Hres as (_ & _ & r & Hr & Herr & ->).
  cbn [Root NodeCount].
  eapply scanNodeFuel_count; eauto. lia.
Qed.

Lemma NodeCount_plus_uncounted_witness :
  treeSize Fixtures.scenarioTree = 5 + uncounted Fixtures.defaults 0 Fixtures.scenarioTree.
Proof.
  apply (NodeCount_plus_uncounted Filepath.unix Fixtures.scenario Fixtures.defaults
           Fixtures.background "root" (mkScanResult "root" "" 5 None Fixtures.scenarioTree)).
  - intros t e. discriminate.
  - exact scenario_scanned.
Defined.

(** Without a configured limit the count is the number of nodes. *)
Theorem NodeCount_unlimited :
  forall (P : Filepath.PathOps) (fs : Os.FileSystem) (s : FileTreeScanner) (ctx : Context)
         (path : string) (res : ScanResult),
    Config.MaxDepth (config s) < 0 ->
    standard ctx ->
    ScanDirectory P fs s ctx path = Some (Ok res) ->
    NodeCount res = treeSize (Root res).
Proof.
  intros P fs s ctx path res Hm Hstd Hres.
  apply ScanDirectory_Ok_inv in Hres as (_ & _ & r & Hr & Herr & ->).
  cbn [Root NodeCount].
  rewrite (scanNodeFuel_count _ _ _ _ _ _ _ _ _ Hstd Hr) by (auto; lia).
  unfold uncounted. replace (Config.MaxDepth (config s) >=? 0) with false by lia. lia.
Qed.

Lemma NodeCount_unlimited_witness :
  5 = treeSize Fixtures.scenarioTree.
Proof.
  apply (NodeCount_unlimited Filepath.unix Fixtures.scenario (Fixtures.withMaxDepth (-1))
           Fixtures.background "root" (mkScanResult "root" "" 5 None Fixtures.scenarioTree)).
  - reflexivity.
  - intros t e. discriminate.
  - vm_compute. reflexivity.
Defined.

(** With hidden entries not shown, no child of a returned tree has a name
    starting with a dot. *)
Theorem hidden_entries_filtered :
  forall (P : Filepath.PathOps) (fs : Os.FileSystem) (s : FileTreeScanner) (ctx : Context)
         (path : string) (res : ScanResult) (n c : TreeNode),
    Config.ShowHidden (config s) = false ->
    ScanDirectory P fs s ctx path = Some (Ok res) ->
    In n (nodes (Root res)) ->
    In c (Children n) ->
    Strings.HasPrefix (Name c) "." = false.
Proof.
  intros P fs s ctx path res n c Hh Hres Hn Hc.
  apply ScanDirectory_shape in Hres as [Hinv _].
  rewrite Forall_forall in Hinv. apply Hinv in Hn.
  apply selected_from_entries in Hn. rewrite Forall_forall in Hn.
  destruct (Hn c Hc) as (e & He & Hname & _). rewrite Hname.
  unfold listing in He. destruct (Os.ReadDir fs (Path n)); [|contradiction].
  eapply prepareEntries_visible; eauto.
Qed.

(** With [MaxDepth = d >= 0] the returned tree has no node below depth
    [d + 1]: the nodes at depth [d + 1] have no children. Whatever the
    configuration, it has no node below depth 51, and the scan returns. *)
Theorem depth_is_bounded :
  forall (P : Filepath.PathOps) (fs : Os.FileSystem) (s : FileTreeScanner) (ctx : Context)
         (path : string),
    (exists out, ScanDirectoryRun P fs s ctx path = Some out) /\
    (forall res,
        ScanDirectory P fs s ctx path = Some (Ok res) ->
        (treeHeight (Root res) <= 51)%nat /\
        (Config.MaxDepth (config s) >= 0 ->
         (treeHeight (Root res) <= Z.to_nat (Config.MaxDepth (config s) + 1))%nat)).
Proof.
  intros P fs s ctx path. split; [apply ScanDirectoryRun_total|].
  intros res Hres. split; [now apply ScanDirectory_shape in Hres|].
  intros Hm. apply ScanDirectory_Ok_inv in Hres as (_ & _ & r & Hr & _ & ->).
  apply scanNodeFuel_height_limit in Hr as [_ Hh]; auto.
  cbn [Root]. now rewrite Z.sub_0_r in Hh.
Qed.

Lemma hidden_entries_witness :
  Strings.HasPrefix (Name (mkTreeNode "root/a.log" "a.log" false [])) "." = false.
Proof.
  apply (hidden_entries_filtered Filepath.unix Fixtures.scenario Fixtures.defaults
           Fixtures.background "root" (mkScanResult "root" "" 5 None Fixtures.scenarioTree)
           Fixtures.scenarioTree).
  - reflexivity.
  - exact scenario_scanned.
  - left. reflexivity.
  - right. left. reflexivity.
Defined.

End ScannerSpec.

(** ** The specification of the renderer *)
Module RendererSpec.
Import Scanner Renderer.

(** The text of a loop over [children], the child at index [i] of [n]
    being written after [connector i n] and rendered under [next i n]. *)
Fixpoint childrenText (connector next : Z -> Z -> string) (prefix : string)
    (n i : Z) (children : list TreeNode) : string :=
  match children with
  | [] => ""
  | child :: rest =>
      (prefix +++ connector i n) +++ renderNode child (next i n) false +++
      childrenText connector next prefix n (i + 1) rest
  end.

(** [renderNode] written with given rules for the connector and for the
    prefix of the descendants. *)
Definition renderedBy (connector : bool -> Z -> Z -> string)
    (next : bool -> string -> Z -> Z -> string)
    (node : TreeNode) (prefix : string) (isRoot : bool) : string :=
  (if isRoot then "" else nodeLine node) +++
  childrenText (connector isRoot) (next isRoot prefix) prefix
    (Z.of_nat (List.length (Children node))) 0 (Children node).

(** The connector: none for the first child of the root, the last-branch
    glyph for a last child, the branch glyph otherwise. *)
Definition describedConnector (isRoot : bool) (i n : Z) : string :=
  if isRoot && (i =? 0) then ""
  else if i =? n - 1 then "└── " else "├── ".

(** The prefix of the descendants, extended for every child. *)
Definition extendedPrefix (isRoot : bool) (prefix : string) (i n : Z) : string :=
  if i =? n - 1 then prefix +++ "    " else prefix +++ "│   ".

(** The prefix of the descendants: empty below the first child of the
    root, extended for every other child. *)
Definition describedPrefix (isRoot : bool) (prefix : string) (i n : Z) : string :=
  if isRoot && (i =? 0) then "" else extendedPrefix isRoot prefix i n.

Lemma connectorFor_described : forall isRoot prefix i n,
  connectorFor isRoot prefix i n =
  (describedConnector isRoot i n, describedPrefix isRoot prefix i n).
Proof.
  intros isRoot prefix i n.
  unfold connectorFor, describedConnector, describedPrefix, extendedPrefix.
  destruct (isRoot && (i =? 0)); [reflexivity|].
  destruct (i =? n - 1); reflexivity.
Qed.

(** C8, as amended. Every child is written after the current prefix and
    its connector: none for the very first child of the root, the
    last-branch glyph for a last child, the branch glyph for any other;
    its descendants are rendered under the empty prefix when it is the very
    first child of the root, and otherwise under the current prefix
    extended by blank spacing for a last child and by the vertical-bar
    marker for a non-last child. *)
Theorem renderNode_connectors :
  forall (node : TreeNode) (prefix : string) (isRoot : bool),
    renderNode node prefix isRoot =
    renderedBy describedConnector describedPrefix node prefix isRoot.
Proof.
  intros [path name isDir children] prefix isRoot.
  unfold renderedBy. cbn [renderNode Children]. f_equal.
  generalize (Z.of_nat (List.length children)) as n.
  generalize 0 as i.
  induction children as [|child rest IH]; intros i n; cbn [childrenText]; [reflexivity|].
  rewrite connectorFor_described. now rewrite IH.
Qed.

(** [renderNode] as it would be with the prefix extended for every child. *)
Definition extendedRender : TreeNode -> string -> bool -> string :=
  renderedBy describedConnector extendedPrefix.

(** C8, as stated, fails below the first child of the root: in the
    scenario of the specification the files of [b] are written flush-left,
    not under the vertical-bar marker. *)
Lemma renderNode_counterexample :
  renderNode Fixtures.scenarioTree "" true =
    "📁 b/" +++ Strings.newline +++
    "├── 📄 a.txt" +++ Strings.newline +++
    "└── 📄 z.txt" +++ Strings.newline +++
    "└── 📄 a.log" +++ Strings.newline /\
  extendedRender Fixtures.scenarioTree "" true =
    "📁 b/" +++ Strings.newline +++
    "│   ├── 📄 a.txt" +++ Strings.newline +++
    "│   └── 📄 z.txt" +++ Strings.newline +++
    "└── 📄 a.log" +++ Strings.newline /\
  (renderNode Fixtures.scenarioTree "" true =?
   extendedRender Fixtures.scenarioTree "" true)%string = false.
Proof. repeat split; vm_compute; reflexivity. Qed.

(** *** The scenarios of the specification *)

(** [root] holding [b] (with [z.txt], [a.txt]) and [a.log]: five nodes,
    [b] before [a.log], [a.txt] before [z.txt], and the text below. *)
Lemma scenario_rendered :
  ScanDirectory Filepath.unix Fixtures.scenario Fixtures.defaults Fixtures.background "root" =
    Some (Ok (mkScanResult "root" "" 5 None Fixtures.scenarioTree)) /\
  RenderTree (Some Fixtures.scenarioTree) =
    "File Tree for: root" +++ Strings.newline +++
    "==================================================" +++ Strings.newline +++
    Strings.newline +++
    "📁 b/" +++ Strings.newline +++
    "├── 📄 a.txt" +++ Strings.newline +++
    "└── 📄 z.txt" +++ Strings.newline +++
    "└── 📄 a.log" +++ Strings.newline.
Proof. split; vm_compute; reflexivity. Qed.

(** An empty directory: one node, and only the header is written. *)
Lemma empty_directory_rendered :
  ScanDirectory Filepath.unix (Fixtures.ofListing [("empty", [])]) Fixtures.defaults
    Fixtures.background "empty" =
    Some (Ok (mkScanResult "empty" "" 1 None (mkTreeNode "empty" "empty" true []))) /\
  RenderTree (Some (mkTreeNode "empty" "empty" true [])) =
    "File Tree for: empty" +++ Strings.newline +++
    "==================================================" +++ Strings.newline +++
    Strings.newline /\
  RenderTree None = "".
Proof. repeat split; vm_compute; reflexivity. Qed.

End RendererSpec.

(** ** Further properties of the scanner *)
Module ScannerProps.
Import Scanner ScanFacts.

(** *** Counts are positive, and a live context cannot fail a scan *)

Lemma scanEntries_count_le : forall P ctx scan,
  (forall c t r, scan c t = Some r -> 0 <= outCount r) ->
  forall entries node count t r,
    scanEntries P ctx scan entries node count t = Some r -> count <= outCount r.
Proof.
  intros P ctx scan Hscan.
  induction entries as [|e rest IH]; intros node count t r H; cbn [scanEntries] in H.
  - injection H as <-. cbn. lia.
  - destruct (ctx t); [injection H as <-; cbn; lia|].
    destruct (isProblematicPath _); [now apply IH in H|].
    destruct (Os.IsDir e); [|apply IH in H; lia].
    destruct (scan _ _) as [r1|] eqn:Hr1; [|discriminate].
    apply Hscan in Hr1.
    destruct (outErr r1) as [err|]; [destruct (isCancellation err)|];
      first [injection H as <-; cbn; lia | apply IH in H; lia].
Qed.

Lemma scanNodeFuel_count_nonneg : forall P fs s ctx fuel node depth t r,
  scanNodeFuel P fs s ctx fuel node depth t = Some r -> 0 <= outCount r.
Proof.
  intros P fs s ctx.
  induction fuel as [|fuel IH]; intros node depth t r H; [discriminate|].
  cbn [scanNodeFuel] in H.
  destruct (ctx t); [injection H as <-; cbn; lia|].
  destruct (_ && _); [injection H as <-; cbn; lia|].
  destruct (depth >? 50); [injection H as <-; cbn; lia|].
  destruct (Os.ReadDir fs (Path node)); [|injection H as <-; cbn; lia].
  apply scanEntries_count_le in H; [lia|].
  intros c t' r'. apply IH.
Qed.

(** A non-empty path naming a directory, scanned under a context that is
    never done, always yields a result, whatever the directory holds and
    whatever the configuration: unreadable subdirectories, depth limits and
    excluded paths never turn into an error. The result is rooted at the
    given path and counts at least the root. *)
Theorem live_scan_succeeds :
  forall (P : Filepath.PathOps) (fs : Os.FileSystem) (s : FileTreeScanner) (ctx : Context)
         (path : string) (info : Os.FileInfo),
    path <> "" ->
    Os.Stat fs path = Ok info ->
    Os.InfoIsDir info = true ->
    (forall t, ctx t = None) ->
    exists res,
      ScanDirectory P fs s ctx path = Some (Ok res) /\
      RootPath res = path /\
      Error res = None /\
      sameHead (Root res) (rootNode P path) /\
      1 <= NodeCount res.
Proof.
  intros P fs s ctx path info Hne Hstat Hdir Hlive.
  unfold ScanDirectory, ScanDirectoryRun.
  apply String.eqb_neq in Hne. rewrite Hne, Hstat, Hdir. cbn [negb].
  destruct (scanNode_total P fs s ctx (rootNode P path) 0 O) as [r Hr].
  fold (rootNode P path). rewrite Hr.
  pose proof (scanNodeFuel_stops _ _ _ _ _ _ _ _ _ Hr) as (_ & _ & _ & Herr).
  destruct (outErr r) as [err|] eqn:He.
  { destruct (Herr err eq_refl) as [_ Hk]. rewrite Hlive in Hk. discriminate. }
  cbn. eexists. split; [reflexivity|]. cbn [RootPath Error Root NodeCount].
  repeat split; try (apply (scanNodeFuel_shape _ _ _ _ _ _ _ _ _ Hr); reflexivity).
  rewrite scanNode_eq, Hlive in Hr.
  replace (depthLimited s 0) with false in Hr by (unfold depthLimited; lia).
  change (0 >? 50) with false in Hr.
  destruct (Os.ReadDir fs (Path (rootNode P path))); [|now injection Hr as <-].
  apply scanEntries_count_le in Hr; [exact Hr|].
  intros c t r'. apply scanNodeFuel_count_nonneg.
Qed.

Lemma live_scan_witness :
  exists res,
    ScanDirectory Filepath.unix Fixtures.locked Fixtures.defaults Fixtures.background "root"
      = Some (Ok res) /\
    RootPath res = "root" /\
    Error res = None /\
    sameHead (Root res) (rootNode Filepath.unix "root") /\
    1 <= NodeCount res.
Proof.
  apply (live_scan_succeeds Filepath.unix Fixtures.locked Fixtures.defaults
           Fixtures.background "root" (Os.mkFileInfo true)).
  - discriminate.
  - reflexivity.
  - reflexivity.
  - reflexivity.
Defined.

(** *** Excluded paths *)

Lemma Contains_trans : forall q p sub,
  Strings.Contains q p = true -> Strings.Contains p sub = true ->
  Strings.Contains q sub = true.
Proof.
  intros q p sub Hq Hp.
  apply StringFacts.Contains_iff in Hq as (a & b & ->).
  apply StringFacts.Contains_iff in Hp as (a' & b' & ->).
  apply StringFacts.Contains_iff. exists (a +++ a'), (b' +++ b).
  now rewrite !StringFacts.append_assoc.
Qed.

(** A path is excluded exactly when it splits around one of the six
    reserved names, compared byte by byte; so every path that contains an
    excluded path is excluded too: everything below an excluded directory,
    and any name that merely embeds a reserved one. *)
Theorem isProblematicPath_spec :
  forall path : string,
    (isProblematicPath path = true <->
     exists reserved before after,
       In reserved problematicPaths /\ path = before +++ reserved +++ after) /\
    (forall longer,
        isProblematicPath path = true -> Strings.Contains longer path = true ->
        isProblematicPath longer = true).
Proof.
  intros path.
  assert (Hiff : forall p,
            isProblematicPath p = true <->
            exists reserved, In reserved problematicPaths /\
                             Strings.Contains p reserved = true).
  { intros p. unfold isProblematicPath. apply existsb_exists. }
  split.
  - rewrite Hiff. split.
    + intros (reserved & Hin & Hc). apply StringFacts.Contains_iff in Hc as (a & b & ->).
      eauto.
    + intros (reserved & a & b & Hin & ->). exists reserved. split; [exact Hin|].
      apply StringFacts.Contains_iff. eauto.
  - intros longer Hp Hc. apply Hiff in Hp as (reserved & Hin & Hr).
    apply Hiff. exists reserved. split; [exact Hin|].
    eapply Contains_trans; eauto.
Qed.

(** *** Sorting and the order of enumeration *)

Lemma filter_perm : forall (A : Type) (f : A -> bool) (l l' : list A),
  Permutation l l' -> Permutation (filter f l) (filter f l').
Proof.
  intros A f l l' H. induction H as [|x l l' _ IH|x y l|l l' l'' _ IH1 _ IH2]; cbn.
  - constructor.
  - destruct (f x); [now constructor | exact IH].
  - destruct (f x), (f y); try reflexivity. apply perm_swap.
  - now transitivity (filter f l').
Qed.

(** [sortEntries] keeps every entry, puts the slice in the order of
    [less], and its result depends on the entries alone, not on the order
    they came in. *)
Theorem sortEntries_canonical :
  forall entries entries' : list Os.DirEntry,
    Permutation entries entries' ->
    Permutation entries (sortEntries entries) /\
    StronglySorted SortFacts.entryLe (sortEntries entries) /\
    sortEntries entries' = sortEntries entries.
Proof.
  intros entries entries' Hp.
  split; [apply SortFacts.sortEntries_perm|].
  split; [apply SortFacts.sortEntries_sorted|].
  apply SortFacts.sortEntries_unique; [|apply SortFacts.sortEntries_sorted].
  etransitivity; [exact Hp | apply SortFacts.sortEntries_perm].
Qed.

Lemma sortEntries_canonical_witness :
  Permutation [Fixtures.file "a.log"; Fixtures.dir "b"]
    (sortEntries [Fixtures.file "a.log"; Fixtures.dir "b"]) /\
  StronglySorted SortFacts.entryLe (sortEntries [Fixtures.file "a.log"; Fixtures.dir "b"]) /\
  sortEntries [Fixtures.dir "b"; Fixtures.file "a.log"] =
  sortEntries [Fixtures.file "a.log"; Fixtures.dir "b"].
Proof.
  apply (sortEntries_canonical [Fixtures.file "a.log"; Fixtures.dir "b"]
           [Fixtures.dir "b"; Fixtures.file "a.log"]).
  apply perm_swap.
Defined.

(** Two listings of one directory: both fail, or both succeed with the
    same entries in some order, no more than the size cap lets through. *)
Definition sameListing (l1 l2 : option (list Os.DirEntry)) : Prop :=
  match l1, l2 with
  | Some a, Some b => Permutation a b /\ Z.of_nat (List.length a) <= 10000
  | None, None => True
  | _, _ => False
  end.

Lemma prepareEntries_perm : forall s a b,
  Config.SortDirs (config s) = true ->
  Permutation a b -> Z.of_nat (List.length a) <= 10000 ->
  prepareEntries s a = prepareEntries s b.
Proof.
  intros s a b Hs Hp Hlen. unfold prepareEntries. rewrite Hs.
  rewrite (ScannerSpec.capEntries_small a) by exact Hlen.
  rewrite (ScannerSpec.capEntries_small b)
    by (rewrite <- (Permutation_length Hp); exact Hlen).
  symmetry. apply SortFacts.sortEntries_unique; [|apply SortFacts.sortEntries_sorted].
  etransitivity; [|apply SortFacts.sortEntries_perm].
  destruct (Config.ShowHidden (config s)); [exact Hp|].
  unfold filterHiddenEntries. now apply filter_perm.
Qed.

Lemma scanNodeFuel_sameListing : forall P fs1 fs2 s ctx,
  Config.SortDirs (config s) = true ->
  (forall p, sameListing (Os.ReadDir fs1 p) (Os.ReadDir fs2 p)) ->
  forall fuel node depth t,
    scanNodeFuel P fs1 s ctx fuel node depth t =
    scanNodeFuel P fs2 s ctx fuel node depth t.
Proof.
  intros P fs1 fs2 s ctx Hs Hsame.
  induction fuel as [|fuel IH]; intros node depth t; [reflexivity|].
  cbn [scanNodeFuel].
  destruct (ctx t); [reflexivity|].
  destruct (_ && _); [reflexivity|].
  destruct (depth >? 50); [reflexivity|].
  specialize (Hsame (Path node)). unfold sameListing in Hsame.
  destruct (Os.ReadDir fs1 (Path node)) as [a|], (Os.ReadDir fs2 (Path node)) as [b|];
    try contradiction; [|reflexivity].
  destruct Hsame as [Hp Hlen].
  rewrite (prepareEntries_perm s a b Hs Hp Hlen).
  apply ScannerSpec.scanEntries_ext. intros c t'. apply IH.
Qed.

(** With [SortDirs] set, a scan does not depend on the order in which
    directories enumerate their entries (directories of at most 10000
    entries): two filesystems that differ only in that order give the same
    result, tree and count, and make the same polls. *)
Theorem enumeration_order_is_irrelevant :
  forall (P : Filepath.PathOps) (fs1 fs2 : Os.FileSystem) (s : FileTreeScanner)
         (ctx : Context) (path : string),
    Config.SortDirs (config s) = true ->
    (forall p, Os.Stat fs1 p = Os.Stat fs2 p) ->
    (forall p, sameListing (Os.ReadDir fs1 p) (Os.ReadDir fs2 p)) ->
    ScanDirectoryRun P fs1 s ctx path = ScanDirectoryRun P fs2 s ctx path.
Proof.
  intros P fs1 fs2 s ctx path Hs Hstat Hsame.
  unfold ScanDirectoryRun, scanNode. rewrite Hstat.
  now rewrite (scanNodeFuel_sameListing P fs1 fs2 s ctx Hs Hsame).
Qed.

(** [fs] with every listing reversed. *)
Definition reversed (fs : Os.FileSystem) : Os.FileSystem :=
  Os.mkFileSystem (Os.Stat fs) (fun p => option_map (@rev Os.DirEntry) (Os.ReadDir fs p)).

Lemma enumeration_order_witness :
  ScanDirectoryRun Filepath.unix Fixtures.scenario Fixtures.defaults Fixtures.background
    "root" =
  ScanDirectoryRun Filepath.unix (reversed Fixtures.scenario) Fixtures.defaults
    Fixtures.background "root".
Proof.
  apply (enumeration_order_is_irrelevant Filepath.unix Fixtures.scenario
           (reversed Fixtures.scenario) Fixtures.defaults Fixtures.background "root").
  - reflexivity.
  - reflexivity.
  - intros p. unfold sameListing, reversed, Fixtures.scenario, Fixtures.ofListing.
    cbn [Os.ReadDir List.find fst snd option_map].
    destruct ("root" =? p)%string; cbn [option_map snd].
    + split; [apply Permutation_rev | cbn; lia].
    + destruct ("root/b" =? p)%string; cbn [option_map snd]; [|exact I].
      split; [apply Permutation_rev | cbn; lia].
Defined.

(** *** The shape of a returned tree *)

(** No file node of the tree has children. *)
Definition filesChildless (n : TreeNode) : Prop :=
  Forall (fun m => IsDir m = false -> Children m = []) (nodes n).

Lemma filesChildless_node : forall n,
  (IsDir n = false -> Children n = []) ->
  Forall filesChildless (Children n) ->
  filesChildless n.
Proof.
  intros n Hn Hcs. unfold filesChildless. rewrite nodes_eq. constructor; [exact Hn|].
  revert Hcs. generalize (Children n) as cs. intros cs Hcs.
  induction Hcs as [|c cs Hc _ IH]; cbn; [constructor|].
  apply Forall_app. split; assumption.
Qed.

Lemma scanEntries_kinds :
  forall P ctx (scan : TreeNode -> nat -> option Outcome) (Good : TreeNode -> Prop),
    (forall c t r, scan c t = Some r -> Children c = [] -> IsDir c = true ->
       Good (outNode r)) ->
    (forall c, Children c = [] -> IsDir c = false -> Good c) ->
    forall entries node count t r,
      scanEntries P ctx scan entries node count t = Some r ->
      exists cs,
        outNode r = withChildren node (Children node ++ cs) /\ Forall Good cs.
Proof.
  intros P ctx scan Good Hscan Hfile.
  induction entries as [|e rest IH]; intros node count t r H; cbn [scanEntries] in H.
  - injection H as <-. exists []. cbn [outNode]. rewrite app_nil_r, withChildren_self.
    split; [reflexivity | constructor].
  - destruct (ctx t) as [err|].
    { injection H as <-. exists []. cbn [outNode]. rewrite app_nil_r, withChildren_self.
      split; [reflexivity | constructor]. }
    destruct (isProblematicPath _); [now apply IH in H|].
    destruct (Os.IsDir e) eqn:Hd.
    + destruct (scan _ _) as [r1|] eqn:Hr1; [|discriminate].
      apply Hscan in Hr1 as Hgood; [|reflexivity|reflexivity].
      assert (Hcont : forall count',
                scanEntries P ctx scan rest (appendChild node (outNode r1)) count'
                  (outClock r1) = Some r ->
                exists cs, outNode r = withChildren node (Children node ++ cs) /\
                           Forall Good cs).
      { intros count' Hc. apply IH in Hc as (cs & Hn & Hg).
        exists (outNode r1 :: cs). split; [|now constructor].
        rewrite Hn. unfold withChildren. cbn. now rewrite <- app_assoc. }
      destruct (outErr r1) as [err|]; [destruct (isCancellation err)|]; eauto.
      injection H as <-. exists [outNode r1]. cbn [outNode].
      split; [reflexivity | now constructor].
    + apply IH in H as (cs & Hn & Hg).
      exists (mkTreeNode (Filepath.Join P (Path node) (Os.Name e)) (Os.Name e) false [] :: cs).
      split.
      * rewrite Hn. unfold withChildren. cbn. now rewrite <- app_assoc.
      * constructor; [now apply Hfile | exact Hg].
Qed.

Lemma scanNodeFuel_filesChildless : forall P fs s ctx fuel node depth t r,
  scanNodeFuel P fs s ctx fuel node depth t = Some r ->
  Children node = [] -> IsDir node = true ->
  filesChildless (outNode r).
Proof.
  intros P fs s ctx.
  assert (Hleaf : forall node, Children node = [] -> filesChildless node).
  { intros node Hc. apply filesChildless_node; rewrite Hc; auto. }
  induction fuel as [|fuel IH]; intros node depth t r H Hc Hd; [discriminate|].
  cbn [scanNodeFuel] in H.
  destruct (ctx t); [injection H as <-; now apply Hleaf|].
  destruct (_ && _); [injection H as <-; now apply Hleaf|].
  destruct (depth >? 50); [injection H as <-; now apply Hleaf|].
  destruct (Os.ReadDir fs (Path node)); [|injection H as <-; now apply Hleaf].
  apply (scanEntries_kinds _ _ _ filesChildless) in H.
  - destruct H as (cs & Hn & Hg). rewrite Hc in Hn. cbn [app] in Hn. rewrite Hn.
    apply filesChildless_node; cbn [withChildren IsDir Children]; [congruence | exact Hg].
  - intros c t' r' Hr' Hc' Hd'. eapply IH; eauto.
  - intros c Hc' _. now apply Hleaf.
Qed.

(** A returned tree is rooted at the scanned path, as a directory named
    by the base of the path; every child carries the path joined from its
    parent's path and its own name, and the name and kind of an entry that
    the listing of its parent holds; and no file node has children. *)
Theorem returned_tree_is_well_formed :
  forall (P : Filepath.PathOps) (fs : Os.FileSystem) (s : FileTreeScanner) (ctx : Context)
         (path : string) (res : ScanResult),
    ScanDirectory P fs s ctx path = Some (Ok res) ->
    RootPath res = path /\
    sameHead (Root res) (rootNode P path) /\
    (forall n,
        In n (nodes (Root res)) ->
        (IsDir n = false -> Children n = []) /\
        (forall c,
            In c (Children n) ->
            Path c = Filepath.Join P (Path n) (Name c) /\
            exists entries e,
              Os.ReadDir fs (Path n) = Some entries /\ In e entries /\
              Os.Name e = Name c /\ Os.IsDir e = IsDir c)).
Proof.
  intros P fs s ctx path res Hres.
  pose proof (ScanDirectory_shape _ _ _ _ _ _ Hres) as [Hinv _].
  apply ScanDirectory_Ok_inv in Hres as (_ & _ & r & Hr & _ & ->).
  cbn [RootPath Root] in *. split; [reflexivity|].
  split; [now apply (scanNodeFuel_shape _ _ _ _ _ _ _ _ _ Hr)|].
  intros n Hn. split.
  - apply scanNodeFuel_filesChildless in Hr; [|reflexivity|reflexivity].
    unfold filesChildless in Hr. rewrite Forall_forall in Hr. now apply Hr.
  - intros c Hc. rewrite Forall_forall in Hinv. apply Hinv in Hn.
    apply selected_from_entries in Hn. rewrite Forall_forall in Hn.
    destruct (Hn c Hc) as (e & He & Hname & Hdir & Hpath).
    split; [congruence|].
    unfold listing in He. destruct (Os.ReadDir fs (Path n)) as [entries|]; [|contradiction].
    exists entries, e. repeat split; auto.
    eapply ScannerSpec.prepareEntries_incl; eauto.
Qed.

Lemma returned_tree_witness :
  RootPath (mkScanResult "root" "" 5 None Fixtures.scenarioTree) = "root" /\
  sameHead (Root (mkScanResult "root" "" 5 None Fixtures.scenarioTree))
    (rootNode Filepath.unix "root") /\
  (forall n,
      In n (nodes (Root (mkScanResult "root" "" 5 None Fixtures.scenarioTree))) ->
      (IsDir n = false -> Children n = []) /\
      (forall c,
          In c (Children n) ->
          Path c = Filepath.Join Filepath.unix (Path n) (Name c) /\
          exists entries e,
            Os.ReadDir Fixtures.scenario (Path n) = Some entries /\ In e entries /\
            Os.Name e = Name c /\ Os.IsDir e = IsDir c)).
Proof.
  apply (returned_tree_is_well_formed Filepath.unix Fixtures.scenario Fixtures.defaults
           Fixtures.background "root").
  exact ScannerSpec.scenario_scanned.
Defined.

(** *** Nothing listed is left out *)

(** The entries the loop of the directory at [parentPath] keeps. *)
Definition kept (P : Filepath.PathOps) (parentPath : string) (e : Os.DirEntry) : bool :=
  negb (isProblematicPath (Filepath.Join P parentPath (Os.Name e))).

(** The nodes of a tree with their depths, the root being at depth [d]. *)
Fixpoint withDepth (d : Z) (n : TreeNode) : list (Z * TreeNode) :=
  match n with
  | mkTreeNode _ _ _ children =>
      (d, n) :: (fix all (l : list TreeNode) : list (Z * TreeNode) :=
                   match l with
                   | [] => []
                   | c :: l' => withDepth (d + 1) c ++ all l'
                   end) children
  end.

Lemma withDepth_eq : forall d n,
  withDepth d n = (d, n) :: flat_map (withDepth (d + 1)) (Children n).
Proof.
  intros d [p nm k cs]. cbn -[Z.add]. f_equal.
  all: induction cs as [|c cs IH]; cbn -[Z.add]; [reflexivity | now rewrite IH].
Qed.

(** The children of a directory that was listed are all the kept entries
    of its prepared listing, in that order. *)
Definition complete (P : Filepath.PathOps) (fs : Os.FileSystem) (s : FileTreeScanner)
    (dn : Z * TreeNode) : Prop :=
  IsDir (snd dn) = true ->
  depthLimited s (fst dn) = false ->
  fst dn <= 50 ->
  forall entries,
    Os.ReadDir fs (Path (snd dn)) = Some entries ->
    map ScannerSpec.entryOf (Children (snd dn)) =
    filter (kept P (Path (snd dn))) (prepareEntries s entries).

Lemma scanEntries_exact :
  forall P ctx (scan : TreeNode -> nat -> option Outcome) (Good : TreeNode -> Prop),
    (forall c t r, scan c t = Some r -> Children c = [] -> IsDir c = true ->
       sameHead (outNode r) c /\
       (forall e, outErr r = Some e -> isCancellation e = true) /\
       (outErr r = None -> Good (outNode r))) ->
    (forall c, Children c = [] -> IsDir c = false -> Good c) ->
    forall entries node count t r,
      scanEntries P ctx scan entries node count t = Some r ->
      outErr r = None ->
      exists cs,
        outNode r = withChildren node (Children node ++ cs) /\
        map ScannerSpec.entryOf cs = filter (kept P (Path node)) entries /\
        Forall Good cs.
Proof.
  intros P ctx scan Good Hscan Hfile.
  induction entries as [|e rest IH]; intros node count t r H Hok; cbn [scanEntries] in H.
  - injection H as <-. exists []. cbn [outNode]. rewrite app_nil_r, withChildren_self.
    repeat split; constructor.
  - destruct (ctx t) as [err|]; [injection H as <-; discriminate|].
    cbn [filter]. unfold kept at 1.
    destruct (isProblematicPath _) eqn:Hp; cbn [negb]; [now apply IH in H|].
    destruct (Os.IsDir e) eqn:Hd.
    + destruct (scan _ _) as [r1|] eqn:Hr1; [|discriminate].
      apply Hscan in Hr1 as ((_ & Hname & Hdir) & Hcan & Hgood); [|reflexivity|reflexivity].
      cbn [Name IsDir] in Hname, Hdir.
      destruct (outErr r1) as [err|].
      { rewrite (Hcan err eq_refl) in H. injection H as <-. discriminate. }
      apply IH in H as (cs & Hn & Hmap & Hg); [|exact Hok].
      exists (outNode r1 :: cs). repeat split.
      * rewrite Hn. unfold withChildren. cbn. now rewrite <- app_assoc.
      * cbn [map]. f_equal; [|exact Hmap].
        unfold ScannerSpec.entryOf. rewrite Hname, Hdir.
        destruct e. cbn in Hd. now subst.
      * constructor; auto.
    + apply IH in H as (cs & Hn & Hmap & Hg); [|exact Hok].
      exists (mkTreeNode (Filepath.Join P (Path node) (Os.Name e)) (Os.Name e) false [] :: cs).
      repeat split.
      * rewrite Hn. unfold withChildren. cbn. now rewrite <- app_assoc.
      * cbn [map]. f_equal; [|exact Hmap].
        unfold ScannerSpec.entryOf. cbn. destruct e. cbn in Hd. now subst.
      * constructor; [now apply Hfile | exact Hg].
Qed.

Lemma scanNodeFuel_complete : forall P fs s ctx,
  standard ctx ->
  forall fuel node depth t r,
    scanNodeFuel P fs s ctx fuel node depth t = Some r ->
    Children node = [] ->
    outErr r = None ->
    Forall (complete P fs s) (withDepth depth (outNode r)).
Proof.
  intros P fs s ctx Hstd.
  induction fuel as [|fuel IH]; intros node depth t r H Hc Hok; [discriminate|].
  cbn [scanNodeFuel] in H.
  destruct (ctx t); [injection H as <-; discriminate|].
  fold (depthLimited s depth) in H.
  assert (Hleaf : forall count,
            (depthLimited s depth = true \/ depth > 50 \/
             Os.ReadDir fs (Path node) = None) ->
            Forall (complete P fs s)
              (withDepth depth (outNode (mkOutcome node count None (S t))))).
  { intros count Hwhy. cbn [outNode]. rewrite withDepth_eq, Hc. cbn.
    constructor; [|constructor]. unfold complete. cbn [fst snd].
    intros _ Hlim Hd entries Hread.
    destruct Hwhy as [Hw|[Hw|Hw]]; [congruence | lia | congruence]. }
  destruct (depthLimited s depth) eqn:Hlim; [injection H as <-; apply Hleaf; auto|].
  destruct (depth >? 50) eqn:Hd; [injection H as <-; apply Hleaf; right; left; lia|].
  destruct (Os.ReadDir fs (Path node)) as [entries|] eqn:Hread;
    [|injection H as <-; apply Hleaf; auto].
  apply (scanEntries_exact _ _ _
           (fun c => Forall (complete P fs s) (withDepth (depth + 1) c))) in H;
    [| | |exact Hok].
  - destruct H as (cs & Hn & Hmap & Hg). rewrite Hc in Hn. cbn [app] in Hn.
    rewrite Hn, withDepth_eq. cbn [withChildren Children]. constructor.
    + unfold complete. cbn [fst snd withChildren Path Children].
      intros _ _ _ entries' Hread'. rewrite Hread in Hread'. injection Hread' as <-.
      exact Hmap.
    + clear - Hg. induction Hg as [|c cs Hc _ IHg]; cbn -[Z.add]; [constructor|].
      apply Forall_app. split; assumption.
  - intros c t' r' Hr' Hc' Hd'. split; [|split].
    + now apply (scanNodeFuel_shape _ _ _ _ _ _ _ _ _ Hr').
    + intros e He. apply scanNodeFuel_stops in Hr' as (_ & _ & _ & Herr).
      apply Herr in He as [_ He]. eapply Hstd; eauto.
    + intros Hok'. eapply IH; eauto.
  - intros c Hc' Hd'. rewrite withDepth_eq, Hc'. cbn.
    constructor; [|constructor]. unfold complete. cbn [fst snd]. congruence.
Qed.

(** Under a context of the standard library, a successful scan leaves
    nothing out: every directory of the returned tree that the depth
    limits let the scan list (depth at most 50 and at most [MaxDepth]) and
    whose listing succeeded has as children, in order, exactly the entries
    of its capped, filtered and sorted listing whose joined path is not
    excluded, each with the entry's name and kind. *)
Theorem listed_entries_all_appear :
  forall (P : Filepath.PathOps) (fs : Os.FileSystem) (s : FileTreeScanner) (ctx : Context)
         (path : string) (res : ScanResult) (d : Z) (n : TreeNode)
         (entries : list Os.DirEntry),
    standard ctx ->
    ScanDirectory P fs s ctx path = Some (Ok res) ->
    In (d, n) (withDepth 0 (Root res)) ->
    IsDir n = true ->
    depthLimited s d = false ->
    d <= 50 ->
    Os.ReadDir fs (Path n) = Some entries ->
    map ScannerSpec.entryOf (Children n) =
    filter (kept P (Path n)) (prepareEntries s entries).
Proof.
  intros P fs s ctx path res d n entries Hstd Hres Hin Hdir Hlim Hd Hread.
  apply ScanDirectory_Ok_inv in Hres as (_ & _ & r & Hr & Herr & ->).
  cbn [Root] in Hin.
  pose proof (scanNodeFuel_complete P fs s ctx Hstd _ _ _ _ _ Hr eq_refl Herr) as Hall.
  rewrite Forall_forall in Hall. apply (Hall (d, n) Hin); assumption.
Qed.

Lemma listed_entries_witness :
  map ScannerSpec.entryOf
    (Children (mkTreeNode "root/b" "b" true
                 [ mkTreeNode "root/b/a.txt" "a.txt" false [];
                   mkTreeNode "root/b/z.txt" "z.txt" false [] ])) =
  filter (kept Filepath.unix "root/b")
    (prepareEntries Fixtures.defaults [Fixtures.file "z.txt"; Fixtures.file "a.txt"]).
Proof.
  apply (listed_entries_all_appear Filepath.unix Fixtures.scenario Fixtures.defaults
           Fixtures.background "root" (mkScanResult "root" "" 5 None Fixtures.scenarioTree)
           1
           (mkTreeNode "root/b" "b" true
              [ mkTreeNode "root/b/a.txt" "a.txt" false [];
                mkTreeNode "root/b/z.txt" "z.txt" false [] ])).
  - intros t e. discriminate.
  - exact ScannerSpec.scenario_scanned.
  - right. left. reflexivity.
  - reflexivity.
  - reflexivity.
  - lia.
  - reflexivity.
Defined.

(** *** What a scan reads *)

Lemma scanEntries_local :
  forall P ctx (scan1 scan2 : TreeNode -> nat -> option Outcome),
    forall entries node count t r,
      scanEntries P ctx scan1 entries node count t = Some r ->
      (forall c t' r',
          scan1 c t' = Some r' -> Children c = [] -> IsDir c = true ->
          In (outNode r') (Children (outNode r)) -> scan2 c t' = Some r') ->
      scanEntries P ctx scan2 entries node count t = Some r.
Proof.
  intros P ctx scan1 scan2.
  induction entries as [|e rest IH]; intros node count t r H Hsame;
    cbn [scanEntries] in H |- *; [exact H|].
  destruct (ctx t); [exact H|].
  destruct (isProblematicPath _); [now apply IH|].
  destruct (Os.IsDir e) eqn:Hd; [|now apply IH].
  destruct (scan1 _ _) as [r1|] eqn:Hr1; [|discriminate].
  assert (Hin : In (outNode r1) (Children (outNode r))).
  { destruct (outErr r1) as [err|]; [destruct (isCancellation err)|].
    - injection H as <-. cbn. apply in_or_app. right. now left.
    - apply (scanEntries_kinds _ _ _ (fun _ => True)) in H as (cs & -> & _); auto.
      cbn. apply in_or_app. left. apply in_or_app. right. now left.
    - apply (scanEntries_kinds _ _ _ (fun _ => True)) in H as (cs & -> & _); auto.
      cbn. apply in_or_app. left. apply in_or_app. right. now left. }
  rewrite (Hsame _ _ _ Hr1 eq_refl eq_refl Hin).
  destruct (outErr r1) as [err|]; [destruct (isCancellation err)|];
    first [exact H | now apply IH].
Qed.

Lemma scanNodeFuel_local : forall P fs1 fs2 s ctx fuel node depth t r,
  scanNodeFuel P fs1 s ctx fuel node depth t = Some r ->
  Children node = [] -> IsDir node = true ->
  (forall n, In n (nodes (outNode r)) -> IsDir n = true ->
     Os.ReadDir fs2 (Path n) = Os.ReadDir fs1 (Path n)) ->
  scanNodeFuel P fs2 s ctx fuel node depth t = Some r.
Proof.
  intros P fs1 fs2 s ctx.
  induction fuel as [|fuel IH]; intros node depth t r H Hc Hd Hsame; [discriminate|].
  pose proof (scanNodeFuel_shape _ _ _ _ _ _ _ _ _ H Hc) as ((Hpath & _ & Hdir) & _).
  assert (Hread : Os.ReadDir fs2 (Path node) = Os.ReadDir fs1 (Path node)).
  { rewrite <- Hpath. apply Hsame; [apply nodes_self | congruence]. }
  cbn [scanNodeFuel] in H |- *.
  destruct (ctx t); [exact H|].
  destruct (_ && _); [exact H|].
  destruct (depth >? 50); [exact H|].
  rewrite Hread.
  destruct (Os.ReadDir fs1 (Path node)); [|exact H].
  eapply scanEntries_local; [exact H|].
  intros c t' r' Hr' Hc' Hd' Hin. eapply IH; eauto.
  intros n Hn. apply Hsame. eapply nodes_child; eauto.
Qed.

(** A successful scan has read nothing but the listings of the
    directories of the tree it returns: on any filesystem that agrees
    with the scanned one on the root's [Stat] and on the listing of every
    directory node of the result, the scan returns the same result. What
    lies behind files, behind excluded entries, or anywhere else does not
    matter. *)
Theorem scan_reads_only_its_tree :
  forall (P : Filepath.PathOps) (fs1 fs2 : Os.FileSystem) (s : FileTreeScanner)
         (ctx : Context) (path : string) (res : ScanResult),
    ScanDirectory P fs1 s ctx path = Some (Ok res) ->
    Os.Stat fs2 path = Os.Stat fs1 path ->
    (forall n, In n (nodes (Root res)) -> IsDir n = true ->
       Os.ReadDir fs2 (Path n) = Os.ReadDir fs1 (Path n)) ->
    ScanDirectory P fs2 s ctx path = Some (Ok res).
Proof.
  intros P fs1 fs2 s ctx path res Hres Hstat Hsame.
  pose proof (ScanDirectory_Ok_inv _ _ _ _ _ _ Hres) as (Hne & Hs & r & Hr & Herr & ->).
  cbn [Root] in Hsame.
  apply (scanNodeFuel_local P fs1 fs2) in Hr; [|reflexivity|reflexivity|exact Hsame].
  unfold ScanDirectory, ScanDirectoryRun.
  apply String.eqb_neq in Hne. rewrite Hne, Hstat, Hs. cbn [negb Os.InfoIsDir].
  fold (rootNode P path). unfold scanNode in *. rewrite Hr, Herr. reflexivity.
Qed.

(** The scenario with something listed behind the file [a.log] and behind
    an excluded directory. *)
Definition cluttered : Os.FileSystem :=
  Os.mkFileSystem (Os.Stat Fixtures.scenario)
    (fun p => if (p =? "root/a.log")%string then Some [Fixtures.file "ghost"]
              else if (p =? "root/Recovery")%string then Some [Fixtures.file "kept"]
              else Os.ReadDir Fixtures.scenario p).

Lemma scan_reads_only_witness :
  ScanDirectory Filepath.unix cluttered Fixtures.defaults Fixtures.background "root" =
  Some (Ok (mkScanResult "root" "" 5 None Fixtures.scenarioTree)).
Proof.
  apply (scan_reads_only_its_tree Filepath.unix Fixtures.scenario cluttered
           Fixtures.defaults Fixtures.background "root").
  - exact ScannerSpec.scenario_scanned.
  - reflexivity.
  - intros n [<-|[<-|[<-|[<-|[<-|[]]]]]]; intros Hd; try discriminate Hd; reflexivity.
Defined.

(** *** Polls and counted nodes *)

Lemma scanEntries_polls : forall P ctx scan,
  (forall c t r, scan c t = Some r ->
     0 <= outCount r <= Z.of_nat (outClock r) - Z.of_nat t) ->
  forall entries node count t r,
    scanEntries P ctx scan entries node count t = Some r ->
    0 <= outCount r - count <= Z.of_nat (outClock r) - Z.of_nat t.
Proof.
  intros P ctx scan Hscan.
  induction entries as [|e rest IH]; intros node count t r H; cbn [scanEntries] in H.
  - injection H as <-. cbn [outCount outClock]. lia.
  - destruct (ctx t); [injection H as <-; cbn [outCount outClock]; lia|].
    destruct (isProblematicPath _); [apply IH in H; lia|].
    destruct (Os.IsDir e); [|apply IH in H; lia].
    destruct (scan _ _) as [r1|] eqn:Hr1; [|discriminate].
    pose proof (Hscan _ _ _ Hr1) as H1.
    destruct (outErr r1) as [err|]; [destruct (isCancellation err)|].
    + injection H as <-. cbn [outCount outClock]. lia.
    + apply IH in H. lia.
    + apply IH in H. lia.
Qed.

Lemma scanNodeFuel_polls : forall P fs s ctx fuel node depth t r,
  scanNodeFuel P fs s ctx fuel node depth t = Some r ->
  0 <= outCount r <= Z.of_nat (outClock r) - Z.of_nat t.
Proof.
  intros P fs s ctx.
  induction fuel as [|fuel IH]; intros node depth t r H; [discriminate|].
  cbn [scanNodeFuel] in H.
  destruct (ctx t); [injection H as <-; cbn [outCount outClock]; lia|].
  destruct (_ && _); [injection H as <-; cbn [outCount outClock]; lia|].
  destruct (depth >? 50); [injection H as <-; cbn [outCount outClock]; lia|].
  destruct (Os.ReadDir fs (Path node)); [|injection H as <-; cbn [outCount outClock]; lia].
  apply scanEntries_polls in H; [lia|].
  intros c t' r'. apply IH.
Qed.

(** A scan polls the context at least once for every node it counts:
    the count of a result is at most the number of polls made. *)
Theorem polls_at_least_once_per_node :
  forall (P : Filepath.PathOps) (fs : Os.FileSystem) (s : FileTreeScanner) (ctx : Context)
         (path : string) (res : ScanResult) (clock : nat),
    ScanDirectoryRun P fs s ctx path = Some (Ok res, clock) ->
    NodeCount res <= Z.of_nat clock.
Proof.
  intros P fs s ctx path res clock Hrun. unfold ScanDirectoryRun in Hrun.
  destruct (path =? "")%string; [discriminate|].
  destruct (Os.Stat fs path) as [info|err]; [|discriminate].
  destruct (negb (Os.InfoIsDir info)); [discriminate|].
  destruct (scanNode _ _ _ _ _ _ _) as [r|] eqn:Hr; [|discriminate].
  apply scanNodeFuel_polls in Hr.
  destruct (outErr r); [discriminate|]. injection Hrun as <- <-. cbn. lia.
Qed.

Lemma polls_witness : 5 <= Z.of_nat 6.
Proof.
  apply (polls_at_least_once_per_node Filepath.unix Fixtures.scenario Fixtures.defaults
           Fixtures.background "root" (mkScanResult "root" "" 5 None Fixtures.scenarioTree) 6).
  vm_compute. reflexivity.
Defined.

(** *** The default scanner *)

(** A scanner made without a configuration uses the defaults: every tree
    it returns is at most 16 levels high below its root, lists the
    directories of a node before its files, each group in byte-wise order
    of name, and holds no child whose name starts with a dot. *)
Theorem default_scanner_guarantees :
  forall (P : Filepath.PathOps) (fs : Os.FileSystem) (ctx : Context)
         (path : string) (res : ScanResult),
    ScanDirectory P fs (NewFileTreeScanner None) ctx path = Some (Ok res) ->
    (treeHeight (Root res) <= 16)%nat /\
    (forall n,
        In n (nodes (Root res)) ->
        ScannerSpec.dirsFirstSorted (Children n) /\
        (forall c, In c (Children n) -> Strings.HasPrefix (Name c) "." = false)).
Proof.
  intros P fs ctx path res Hres.
  pose proof (ScanDirectory_shape _ _ _ _ _ _ Hres) as [Hinv _].
  rewrite Forall_forall in Hinv.
  split.
  - apply ScanDirectory_Ok_inv in Hres as (_ & _ & r & Hr & _ & ->).
    apply scanNodeFuel_height_limit in Hr as [_ Hh]; [exact Hh | cbn; lia | reflexivity].
  - intros n Hn. specialize (Hinv n Hn). unfold nodeInv in Hinv. split.
    + apply ScannerSpec.sorted_dirs_first.
      eapply ScannerSpec.selected_sorted; [exact Hinv|].
      unfold listing. destruct (Os.ReadDir fs (Path n)); [|constructor].
      now apply ScannerSpec.prepareEntries_sorted.
    + intros c Hc. apply selected_from_entries in Hinv. rewrite Forall_forall in Hinv.
      destruct (Hinv c Hc) as (e & He & Hname & _). rewrite Hname.
      unfold listing in He. destruct (Os.ReadDir fs (Path n)); [|contradiction].
      eapply prepareEntries_visible; [|exact He]. reflexivity.
Qed.

Lemma default_scanner_witness :
  (treeHeight (Root (mkScanResult "root" "" 5 None Fixtures.scenarioTree)) <= 16)%nat /\
  (forall n,
      In n (nodes (Root (mkScanResult "root" "" 5 None Fixtures.scenarioTree))) ->
      ScannerSpec.dirsFirstSorted (Children n) /\
      (forall c, In c (Children n) -> Strings.HasPrefix (Name c) "." = false)).
Proof.
  apply (default_scanner_guarantees Filepath.unix Fixtures.scenario Fixtures.background
           "root").
  exact ScannerSpec.scenario_scanned.
Defined.

End ScannerProps.

(** ** Further properties of the renderer *)
Module RendererProps.
Import Scanner ScanFacts Renderer.

(** Induction over a tree, with the property known of all children. *)
Lemma TreeNode_children_ind : forall Q : TreeNode -> Prop,
  (forall n, Forall Q (Children n) -> Q n) -> forall n, Q n.
Proof.
  intros Q H. fix IH 1. intros [p nm d cs]. apply H. cbn [Children].
  induction cs as [|c cs IHcs]; constructor; [apply IH | exact IHcs].
Qed.

(** The loop of [renderNode] over the children from index [i] on. *)
Fixpoint renderChildren (isRoot : bool) (prefix : string) (n i : Z)
    (children : list TreeNode) : string :=
  match children with
  | [] => ""
  | child :: rest =>
      (prefix +++ fst (connectorFor isRoot prefix i n)) +++
      renderNode child (snd (connectorFor isRoot prefix i n)) false +++
      renderChildren isRoot prefix n (i + 1) rest
  end.

Lemma renderNode_unfold : forall node prefix isRoot,
  renderNode node prefix isRoot =
  (if isRoot then "" else nodeLine node) +++
  renderChildren isRoot prefix (Z.of_nat (List.length (Children node))) 0 (Children node).
Proof.
  intros [path name isDir children] prefix isRoot.
  cbn [renderNode Children]. f_equal.
  generalize (Z.of_nat (List.length children)) as n.
  generalize 0 as i.
  induction children as [|child rest IH]; intros i n; cbn [renderChildren]; [reflexivity|].
  destruct (connectorFor isRoot prefix i n) as [connector nextPrefix]. cbn [fst snd].
  now rewrite IH.
Qed.

(** The number of line feeds in a string. *)
Fixpoint lineFeeds (s : string) : nat :=
  match s with
  | EmptyString => O
  | String c s' => (if Ascii.eqb c (ascii_of_nat 10) then 1 else 0) + lineFeeds s'
  end.

Lemma lineFeeds_app : forall a b, lineFeeds (a +++ b) = (lineFeeds a + lineFeeds b)%nat.
Proof.
  induction a as [|c a IH]; intros b; cbn [String.append lineFeeds]; [reflexivity|].
  rewrite IH. lia.
Qed.

Lemma append_nil_r : forall s, s +++ "" = s.
Proof. induction s; cbn; [reflexivity | now f_equal]. Qed.

(** The entries of a tree: all its nodes but the root, in pre-order. *)
Definition entries (root : TreeNode) : list TreeNode := flat_map nodes (Children root).

(** The lines of the nodes [ns], each written after its decoration. *)
Fixpoint decorated (ds : list string) (ns : list TreeNode) : string :=
  match ds, ns with
  | d :: ds', n :: ns' => (d +++ nodeLine n) +++ decorated ds' ns'
  | _, _ => ""
  end.

Lemma decorated_app : forall ds1 ns1 ds2 ns2,
  List.length ds1 = List.length ns1 ->
  decorated (ds1 ++ ds2) (ns1 ++ ns2) = decorated ds1 ns1 +++ decorated ds2 ns2.
Proof.
  induction ds1 as [|d ds1 IH]; intros [|n ns1] ds2 ns2 Hlen; cbn in Hlen; try discriminate.
  - reflexivity.
  - cbn [app decorated]. rewrite IH by lia. now rewrite !StringFacts.append_assoc.
Qed.

Lemma connectorFor_lineFeeds : forall isRoot prefix i n,
  lineFeeds prefix = O ->
  lineFeeds (prefix +++ fst (connectorFor isRoot prefix i n)) = O /\
  lineFeeds (snd (connectorFor isRoot prefix i n)) = O.
Proof.
  intros isRoot prefix i n Hp. unfold connectorFor.
  destruct (isRoot && (i =? 0)); [|destruct (i =? n - 1)]; cbn [fst snd];
    rewrite ?lineFeeds_app, ?Hp; split; reflexivity.
Qed.

Definition feedFree (d : string) : Prop := lineFeeds d = O.

(** [node] renders, under any prefix, as its line followed by the lines
    of its entries, each after a decoration without line feed. *)
Definition rendersDecorated (node : TreeNode) : Prop :=
  forall prefix isRoot,
    feedFree prefix ->
    exists ds,
      List.length ds = List.length (entries node) /\
      Forall feedFree ds /\
      renderNode node prefix isRoot =
      (if isRoot then "" else nodeLine node) +++ decorated ds (entries node).

Lemma renderChildren_decorated : forall isRoot prefix n cs,
  feedFree prefix ->
  Forall rendersDecorated cs ->
  forall i,
    exists ds,
      List.length ds = List.length (flat_map nodes cs) /\
      Forall feedFree ds /\
      renderChildren isRoot prefix n i cs = decorated ds (flat_map nodes cs).
Proof.
  intros isRoot prefix n cs Hp Hcs.
  induction Hcs as [|c cs Hc _ IH]; intros i.
  - exists []. repeat split; constructor.
  - destruct (IH (i + 1)) as (ds & Hlen & Hfree & Heq).
    destruct (connectorFor_lineFeeds isRoot prefix i n Hp) as [Hconn Hnext].
    destruct (Hc (snd (connectorFor isRoot prefix i n)) false Hnext)
      as (dc & Hlenc & Hfreec & Heqc).
    exists (((prefix +++ fst (connectorFor isRoot prefix i n)) :: dc) ++ ds).
    cbn [flat_map renderChildren]. rewrite (nodes_eq c). fold (entries c).
    split; [|split].
    + rewrite !length_app. cbn [List.length]. now rewrite Hlen, Hlenc.
    + apply Forall_app. split; [constructor; assumption | assumption].
    + rewrite decorated_app by (cbn [List.length]; now rewrite Hlenc).
      cbn [decorated]. rewrite Heqc, Heq.
      now rewrite !StringFacts.append_assoc.
Qed.

Lemma renderNode_decorated : forall node, rendersDecorated node.
Proof.
  intros node. induction node as [node IH] using TreeNode_children_ind.
  intros prefix isRoot Hp. rewrite renderNode_unfold.
  destruct (renderChildren_decorated isRoot prefix
              (Z.of_nat (List.length (Children node))) (Children node) Hp IH 0)
    as (ds & Hlen & Hfree & Heq).
  exists ds. unfold entries. now rewrite Heq.
Qed.



Lemma Contains_refl_app : forall a s b, Strings.Contains (a +++ s +++ b) s = true.
Proof. intros a s b. apply StringFacts.Contains_iff. eauto. Qed.

Lemma Contains_app_r : forall a b s,
  Strings.Contains b s = true -> Strings.Contains (a +++ b) s = true.
Proof.
  intros a b s H. apply StringFacts.Contains_iff in H as (x & y & ->).
  apply StringFacts.Contains_iff. exists (a +++ x), y.
  now rewrite !StringFacts.append_assoc.
Qed.

Lemma decorated_Contains : forall ds ns n,
  List.length ds = List.length ns -> In n ns ->
  Strings.Contains (decorated ds ns) (nodeLine n) = true.
Proof.
  induction ds as [|d ds IH]; intros [|m ns] n Hlen Hin; cbn in Hlen;
    try discriminate; try contradiction.
  cbn [decorated]. destruct Hin as [->|Hin].
  - rewrite StringFacts.append_assoc. apply Contains_refl_app.
  - apply Contains_app_r. apply IH; [lia | exact Hin].
Qed.

(** Every entry of a tree has its line in the rendering. *)
Theorem every_entry_is_rendered :
  forall (root n : TreeNode),
    In n (entries root) ->
    Strings.Contains (RenderTree (Some root)) (nodeLine n) = true.
Proof.
  intros root n Hin.
  destruct (renderNode_decorated root "" true eq_refl) as (ds & Hlen & _ & Heq).
  unfold RenderTree. rewrite Heq.
  change ("" +++ decorated ds (entries root)) with (decorated ds (entries root)).
  do 2 apply Contains_app_r. now apply decorated_Contains.
Qed.

Lemma every_entry_witness :
  Strings.Contains (RenderTree (Some Fixtures.scenarioTree))
    (nodeLine (mkTreeNode "root/b/z.txt" "z.txt" false [])) = true.
Proof.
  apply (every_entry_is_rendered Fixtures.scenarioTree).
  right. right. left. reflexivity.
Defined.

Lemma nodeLine_lineFeeds : forall n,
  feedFree (Name n) -> lineFeeds (nodeLine n) = 1%nat.
Proof.
  intros n Hn. unfold nodeLine, feedFree in *.
  destruct (IsDir n); rewrite !lineFeeds_app, Hn; reflexivity.
Qed.

Lemma decorated_lineFeeds : forall ds ns,
  List.length ds = List.length ns ->
  Forall feedFree ds -> Forall (fun n => feedFree (Name n)) ns ->
  lineFeeds (decorated ds ns) = List.length ns.
Proof.
  induction ds as [|d ds IH]; intros [|n ns] Hlen Hds Hns; cbn in Hlen; try discriminate.
  - reflexivity.
  - apply Forall_inv in Hds as Hd. apply Forall_inv_tail in Hds.
    apply Forall_inv in Hns as Hn. apply Forall_inv_tail in Hns.
    cbn [decorated List.length]. rewrite !lineFeeds_app, Hd, (nodeLine_lineFeeds n Hn).
    rewrite IH by (auto; lia). reflexivity.
Qed.

Lemma nodes_length : forall n, Z.of_nat (List.length (nodes n)) = treeSize n.
Proof.
  intros n. induction n as [n IH] using TreeNode_children_ind.
  rewrite nodes_eq, treeSize_eq. cbn [List.length].
  rewrite Nat2Z.inj_succ. unfold Z.succ. rewrite Z.add_comm. f_equal.
  induction IH as [|c cs Hc _ IHcs]; cbn -[Z.add]; [reflexivity|].
  rewrite length_app, Nat2Z.inj_add, Hc, IHcs. reflexivity.
Qed.

(** When neither the root path nor the name of any entry holds a line
    feed, the rendering has as many lines as the tree has nodes, plus two:
    three for the header, one for each entry, none for the root. *)
Theorem RenderTree_line_count :
  forall root : TreeNode,
    feedFree (Path root) ->
    Forall (fun n => feedFree (Name n)) (entries root) ->
    Z.of_nat (lineFeeds (RenderTree (Some root))) = treeSize root + 2.
Proof.
  intros root Hpath Hnames.
  destruct (renderNode_decorated root "" true eq_refl) as (ds & Hlen & Hfree & Heq).
  unfold RenderTree. rewrite Heq.
  change ("" +++ decorated ds (entries root)) with (decorated ds (entries root)).
  rewrite !lineFeeds_app, Hpath, (decorated_lineFeeds _ _ Hlen Hfree Hnames).
  rewrite <- nodes_length, nodes_eq. fold (entries root). cbn [List.length].
  change (lineFeeds "File Tree for: ") with O.
  change (lineFeeds Strings.newline) with 1%nat.
  change (lineFeeds (Strings.Repeat "=" 50)) with O. lia.
Qed.

Lemma RenderTree_line_count_witness :
  Z.of_nat (lineFeeds (RenderTree (Some Fixtures.scenarioTree))) =
  treeSize Fixtures.scenarioTree + 2.
Proof.
  apply (RenderTree_line_count Fixtures.scenarioTree).
  - reflexivity.
  - repeat constructor.
Defined.

End RendererProps.

(** ** Package clipboard *)
Module Clipboard.

(** [FyneClipboardManager]: its [clipboard] field is nil ([None]) or a
    clipboard, given by the text it holds. *)
Record FyneClipboardManager := mkFyneClipboardManager {
  clipboard : option string
}.

Definition NewFyneClipboardManager (c : option string) : FyneClipboardManager :=
  mkFyneClipboardManager c.

(** [SetContent]: the manager after the call, and the error returned. *)
Definition SetContent (c : FyneClipboardManager) (content : string)
  : FyneClipboardManager * option error :=
  match clipboard c with
  | None => (c, Some (OtherError "clipboard is not available"))
  | Some _ => (mkFyneClipboardManager (Some content), None)
  end.

End Clipboard.

(** ** Package ui

    The state of [FileTreeApp] that its handlers read and write: the tree
    data, the current result, the text of the status label, the clipboard,
    and the dialogs shown so far. Widgets, the progress dialog and
    [tree.Refresh] carry no such state and are left out. A scan is taken
    on its own: the goroutine of [scanDirectoryAsync] and the closures it
    hands to the UI thread run one after the other, and no other scan is
    in flight. *)
Module Ui.
Import Scanner.

Definition msgNoData : string := "Please scan a directory first.".
Definition msgScanSuccess : string := "Directory scanned successfully!".
Definition msgCopySuccess : string := "File tree copied to clipboard!".

(** [dialog.ShowInformation(title, message, window)] and
    [app.showError(title, err)], which shows the error ["title: err"]. *)
Inductive Dialog : Type :=
| Information (title message : string)
| ErrorDialog (title : string) (err : error).

(** [map[string][]string]; a nil slice is the empty list. *)
Definition TreeData := string -> option (list string).

Definition emptyData : TreeData := fun _ => None.

(** [treeData[key] = value]. *)
Definition assign (treeData : TreeData) (key : string) (value : list string) : TreeData :=
  fun k => if (k =? key)%string then Some value else treeData k.

Record FileTreeApp := mkFileTreeApp {
  scanner : FileTreeScanner;
  clipboard : Clipboard.FyneClipboardManager;
  statusLabel : string;
  treeData : TreeData;
  currentResult : option ScanResult;
  dialogs : list Dialog
}.

Definition setStatus (app : FileTreeApp) (text : string) : FileTreeApp :=
  mkFileTreeApp (scanner app) (clipboard app) text (treeData app) (currentResult app)
    (dialogs app).

Definition show (app : FileTreeApp) (d : Dialog) : FileTreeApp :=
  mkFileTreeApp (scanner app) (clipboard app) (statusLabel app) (treeData app)
    (currentResult app) (dialogs app ++ [d]).

(** [showError]. *)
Definition showError (app : FileTreeApp) (title : string) (err : error) : FileTreeApp :=
  show app (ErrorDialog title err).

(** [childUIDs]. *)
Definition childUIDs (app : FileTreeApp) (uid : string) : list string :=
  match currentResult app with
  | Some result =>
      if (uid =? "")%string then [RootPath result]
      else match treeData app uid with Some children => children | None => [] end
  | None => match treeData app uid with Some children => children | None => [] end
  end.

(** [isBranch]. *)
Definition isBranch (app : FileTreeApp) (uid : string) : bool :=
  if (uid =? "")%string then true
  else match treeData app uid with
       | Some children => 0 <? Z.of_nat (List.length children)
       | None => false
       end.

(** [getCurrentRootPath]. *)
Definition getCurrentRootPath (app : FileTreeApp) : string :=
  match currentResult app with
  | Some result => RootPath result
  | None => ""
  end.

(** [updateTreeNode], for an object that is a label: the text it sets. *)
Definition updateTreeNode (P : Filepath.PathOps) (app : FileTreeApp) (uid : string)
    (branch : bool) : string :=
  let name := if (uid =? getCurrentRootPath app)%string then uid
              else Filepath.Base P uid in
  let icon := if branch then Renderer.folderIcon else Renderer.fileIcon in
  icon +++ " " +++ name.

(** [buildTreeDataFromTreeNode], on the tree data. *)
Fixpoint buildTreeDataFromTreeNode (node : TreeNode) (treeData : TreeData) : TreeData :=
  match node with
  | mkTreeNode path _ _ nodeChildren =>
      let '(children, treeData') :=
        (fix loop (l : list TreeNode) (children : list string) (td : TreeData)
           : list string * TreeData :=
           match l with
           | [] => (children, td)
           | child :: l' =>
               loop l' (children ++ [Path child]) (buildTreeDataFromTreeNode child td)
           end) nodeChildren [] treeData in
      assign treeData' path children
  end.

(** [updateTreeDataSimple]. *)
Definition updateTreeDataSimple (app : FileTreeApp) (result : ScanResult) : FileTreeApp :=
  mkFileTreeApp (scanner app) (clipboard app) (statusLabel app)
    (buildTreeDataFromTreeNode (Root result) emptyData) (Some result) (dialogs app).

(** [fmt.Sprintf("%d", n)]. *)
Definition itoa (n : Z) : string := DecimalString.NilZero.string_of_int (Z.to_int n).

(** [result.TreeText = app.renderer.RenderTree(result.Root)]. *)
Definition withTreeText (result : ScanResult) : ScanResult :=
  mkScanResult (RootPath result) (Renderer.RenderTree (Some (Root result)))
    (NodeCount result) (Error result) (Root result).

(** What [scanDirectoryAsync] does with the values [ScanDirectory]
    returned: the tree text is set, then the closure run on the UI
    thread reports the error or installs the result. *)
Definition scanFinished (app : FileTreeApp) (path : string) (out : result ScanResult)
  : FileTreeApp :=
  match out with
  | Err err =>
      match err with
      | Canceled => setStatus app "Scan cancelled"
      | DeadlineExceeded => setStatus app "Scan timed out (directory too large)"
      | _ => setStatus (showError app "Scan Error" err) "Scan failed"
      end
  | Ok result =>
      let result := withTreeText result in
      let app := updateTreeDataSimple app result in
      let app := setStatus app
                   ("Scanned " +++ itoa (NodeCount result) +++ " items from: " +++ path) in
      show app (Information "Success" msgScanSuccess)
  end.

(** [scanDirectoryAsync], run to the end; [None] stands for a scan
    out of fuel, which does not happen. *)
Definition scanDirectoryAsync (P : Filepath.PathOps) (fs : Os.FileSystem) (ctx : Context)
    (app : FileTreeApp) (path : string) : option FileTreeApp :=
  let app := setStatus app ("Scanning: " +++ path) in
  option_map (scanFinished app path) (ScanDirectory P fs (scanner app) ctx path).

(** [handleCopyToClipboard]. *)
Definition handleCopyToClipboard (app : FileTreeApp) : FileTreeApp :=
  match currentResult app with
  | None => show app (Information "No Data" msgNoData)
  | Some result =>
      let '(clip, err) := Clipboard.SetContent (clipboard app) (TreeText result) in
      let app := mkFileTreeApp (scanner app) clip (statusLabel app) (treeData app)
                   (currentResult app) (dialogs app) in
      match err with
      | Some e => showError app "Clipboard Error" e
      | None => show app (Information "Success" msgCopySuccess)
      end
  end.

End Ui.

(** ** Properties of the tree data and of the handlers *)
Module UiProps.
Import Scanner ScanFacts Ui.

(** The paths of all nodes of a tree. *)
Definition paths (n : TreeNode) : list string := map Path (nodes n).

Lemma paths_eq : forall n, paths n = Path n :: flat_map paths (Children n).
Proof.
  intros n. unfold paths. rewrite nodes_eq. cbn [map]. f_equal.
  induction (Children n) as [|c cs IH]; cbn; [reflexivity|].
  now rewrite map_app, IH.
Qed.

(** [buildTreeDataFromTreeNode] writes the children first, then the node. *)
Lemma buildTreeData_eq : forall node td,
  buildTreeDataFromTreeNode node td =
  assign (fold_left (fun acc c => buildTreeDataFromTreeNode c acc) (Children node) td)
    (Path node) (map Path (Children node)).
Proof.
  intros [path name isDir cs] td. cbn [buildTreeDataFromTreeNode Children Path].
  assert (Hloop : forall l acc td0,
            (fix loop (l : list TreeNode) (children : list string) (td : TreeData)
               : list string * TreeData :=
               match l with
               | [] => (children, td)
               | child :: l' =>
                   loop l' (children ++ [Path child]) (buildTreeDataFromTreeNode child td)
               end) l acc td0 =
            (acc ++ map Path l,
             fold_left (fun acc c => buildTreeDataFromTreeNode c acc) l td0)).
  { induction l as [|c l IH]; intros acc td0; cbn [map fold_left].
    - now rewrite app_nil_r.
    - rewrite IH, <- app_assoc. reflexivity. }
  now rewrite Hloop.
Qed.

Lemma NoDup_app_disjoint : forall (A : Type) (l1 l2 : list A) (a : A),
  NoDup (l1 ++ l2) -> In a l1 -> ~ In a l2.
Proof.
  induction l1 as [|x l1 IH]; intros l2 a Hnd Hin; [contradiction|].
  cbn in Hnd. apply NoDup_cons_iff in Hnd as [Hx Hnd].
  destruct Hin as [->|Hin]; [|now apply IH].
  intros Ha. apply Hx. apply in_or_app. now right.
Qed.

(** Keys that are no path of the trees built are left as they were. *)
Lemma fold_build_other : forall cs td k,
  Forall (fun c => forall td0 k0, ~ In k0 (paths c) ->
                   buildTreeDataFromTreeNode c td0 k0 = td0 k0) cs ->
  ~ In k (flat_map paths cs) ->
  fold_left (fun acc c => buildTreeDataFromTreeNode c acc) cs td k = td k.
Proof.
  intros cs td k Hcs. revert td.
  induction Hcs as [|c cs Hc _ IH]; intros td Hk; cbn [fold_left]; [reflexivity|].
  cbn [flat_map] in Hk.
  rewrite IH by (intros H; apply Hk; apply in_or_app; now right).
  apply Hc. intros H. apply Hk. apply in_or_app. now left.
Qed.

Lemma buildTreeData_other : forall node td k,
  ~ In k (paths node) -> buildTreeDataFromTreeNode node td k = td k.
Proof.
  intros node. induction node as [node IH] using RendererProps.TreeNode_children_ind.
  intros td k Hk. rewrite buildTreeData_eq. rewrite paths_eq in Hk.
  unfold assign. destruct (String.eqb_spec k (Path node)) as [->|_].
  { exfalso. apply Hk. now left. }
  apply fold_build_other; [exact IH|]. intros H. apply Hk. now right.
Qed.

(** With paths all different, every node is recorded with the paths of
    its children. *)
Lemma buildTreeData_node : forall node td n,
  NoDup (paths node) -> In n (nodes node) ->
  buildTreeDataFromTreeNode node td (Path n) = Some (map Path (Children n)).
Proof.
  intros node. induction node as [node IH] using RendererProps.TreeNode_children_ind.
  intros td n Hnd Hin. rewrite buildTreeData_eq.
  rewrite paths_eq in Hnd. apply NoDup_cons_iff in Hnd as [Hroot Hnd].
  rewrite nodes_eq in Hin. destruct Hin as [<-|Hin].
  { unfold assign. now rewrite String.eqb_refl. }
  assert (Hne : Path n <> Path node).
  { intros Heq. apply Hroot. rewrite <- Heq.
    apply in_flat_map in Hin as (c & Hc & Hn). apply in_flat_map.
    exists c. split; [exact Hc|]. unfold paths. now apply in_map. }
  unfold assign. apply String.eqb_neq in Hne. rewrite Hne. clear Hne Hroot.
  revert td Hin Hnd.
  induction IH as [|c cs Hc _ IHcs]; intros td Hin Hnd; [contradiction|].
  cbn [fold_left flat_map] in *.
  apply in_app_or in Hin as [Hin|Hin].
  - rewrite fold_build_other.
    + apply Hc; [now apply NoDup_app_remove_r in Hnd | exact Hin].
    + apply Forall_forall. intros x _ td0 k0. apply buildTreeData_other.
    + eapply NoDup_app_disjoint; [exact Hnd|]. unfold paths. now apply in_map.
  - apply IHcs; [exact Hin | now apply NoDup_app_remove_l in Hnd].
Qed.

(** *** The tree data after a scan *)


Definition sampleApp : FileTreeApp :=
  mkFileTreeApp Fixtures.defaults (Clipboard.NewFyneClipboardManager (Some ""))
    "Application started. Ready to scan" emptyData None [].

Definition scenarioResult : ScanResult :=
  mkScanResult "root" "" 5 None Fixtures.scenarioTree.

Lemma scenario_paths_NoDup : NoDup (paths (Root scenarioResult)).
Proof.
  cbn. repeat constructor; cbn; intuition discriminate.
Qed.


(** After a scan whose paths are all different, a node with a non-empty
    path is a branch of the widget exactly when it has children, whether
    it is a directory or not: a directory without children (empty, not
    listed, or stopped by a depth limit) is no branch. A non-empty uid that
    is no path of the tree is no branch, and the empty uid always is. *)
Theorem isBranch_iff_has_children :
  forall (app : FileTreeApp) (res : ScanResult),
    NoDup (paths (Root res)) ->
    (forall n,
        In n (nodes (Root res)) -> Path n <> "" ->
        (isBranch (updateTreeDataSimple app res) (Path n) = true <-> Children n <> [])) /\
    (forall uid,
        uid <> "" -> ~ In uid (paths (Root res)) ->
        isBranch (updateTreeDataSimple app res) uid = false) /\
    isBranch (updateTreeDataSimple app res) "" = true.
Proof.
  intros app res Hnd.
  split; [|split].
  - intros n Hn Hne. unfold isBranch. apply String.eqb_neq in Hne. rewrite Hne.
    cbn [updateTreeDataSimple treeData]. rewrite (buildTreeData_node _ _ _ Hnd Hn).
    destruct (Children n); cbn; split; congruence.
  - intros uid Hne Hout. unfold isBranch. apply String.eqb_neq in Hne. rewrite Hne.
    cbn [updateTreeDataSimple treeData]. now rewrite buildTreeData_other.
  - reflexivity.
Qed.

Lemma isBranch_witness :
  (forall n,
      In n (nodes (Root scenarioResult)) -> Path n <> "" ->
      (isBranch (updateTreeDataSimple sampleApp scenarioResult) (Path n) = true <->
       Children n <> [])) /\
  (forall uid,
      uid <> "" -> ~ In uid (paths (Root scenarioResult)) ->
      isBranch (updateTreeDataSimple sampleApp scenarioResult) uid = false) /\
  isBranch (updateTreeDataSimple sampleApp scenarioResult) "" = true.
Proof.
  apply (isBranch_iff_has_children sampleApp scenarioResult).
  exact scenario_paths_NoDup.
Defined.

(** *** What the widget unfolds *)

(** A tree of uids. *)
Inductive UidTree : Type :=
| UidNode (uid : string) (kids : list UidTree).

(** The tree of the paths of a tree of nodes. *)
Fixpoint pathTree (n : TreeNode) : UidTree :=
  match n with
  | mkTreeNode path _ _ children => UidNode path (map pathTree children)
  end.

(** The tree got by asking [childUIDs] again and again, [fuel] levels
    deep, from [uid]. *)
Fixpoint expand (app : FileTreeApp) (fuel : nat) (uid : string) : UidTree :=
  match fuel with
  | O => UidNode uid []
  | S fuel' => UidNode uid (map (expand app fuel') (childUIDs app uid))
  end.

Lemma pathTree_eq : forall n, pathTree n = UidNode (Path n) (map pathTree (Children n)).
Proof. now intros []. Qed.

Lemma treeHeight_child : forall n c,
  In c (Children n) -> (S (treeHeight c) <= treeHeight n)%nat.
Proof.
  intros n c Hin. rewrite (treeHeight_eq n).
  induction (Children n) as [|x cs IH]; [contradiction|].
  cbn -[Nat.max]. destruct Hin as [->|Hin]; [lia|]. specialize (IH Hin). lia.
Qed.

Lemma nodes_trans : forall root n x,
  In n (nodes root) -> In x (nodes n) -> In x (nodes root).
Proof.
  intros root. induction root as [root IH] using RendererProps.TreeNode_children_ind.
  intros n x Hn Hx. rewrite nodes_eq in Hn. destruct Hn as [<-|Hn]; [exact Hx|].
  apply in_flat_map in Hn as (c & Hc & Hn).
  rewrite Forall_forall in IH.
  eapply nodes_child; [exact Hc|]. eapply IH; eauto.
Qed.

Lemma expand_node : forall (app : FileTreeApp) (res : ScanResult),
  NoDup (paths (Root res)) ->
  ~ In "" (paths (Root res)) ->
  forall n,
    In n (nodes (Root res)) ->
    forall fuel, (treeHeight n < fuel)%nat ->
    expand (updateTreeDataSimple app res) fuel (Path n) = pathTree n.
Proof.
  intros app res Hnd Hempty n.
  induction n as [n IH] using RendererProps.TreeNode_children_ind.
  intros Hn fuel Hfuel. destruct fuel as [|fuel]; [lia|].
  cbn [expand]. rewrite pathTree_eq. f_equal.
  assert (Hne : (Path n =? "")%string = false).
  { apply String.eqb_neq. intros Heq. apply Hempty. rewrite <- Heq.
    unfold paths. now apply in_map. }
  unfold childUIDs. cbn [updateTreeDataSimple currentResult treeData].
  rewrite Hne, (buildTreeData_node _ _ _ Hnd Hn).
  rewrite map_map. apply map_ext_in. intros c Hc.
  rewrite Forall_forall in IH. apply IH; [exact Hc | |].
  - apply (nodes_trans _ n); [exact Hn|].
    eapply nodes_child; [exact Hc | apply nodes_self].
  - pose proof (treeHeight_child n c Hc). lia.
Qed.

(** After a scan whose paths are all different and non-empty, what the
    tree widget unfolds from the empty uid by [childUIDs] is the tree of
    the paths of the scanned tree, node for node and in order. *)
Theorem widget_shows_the_scanned_tree :
  forall (app : FileTreeApp) (res : ScanResult) (fuel : nat),
    NoDup (paths (Root res)) ->
    ~ In "" (paths (Root res)) ->
    RootPath res = Path (Root res) ->
    (treeHeight (Root res) < fuel)%nat ->
    expand (updateTreeDataSimple app res) (S fuel) "" =
    UidNode "" [pathTree (Root res)].
Proof.
  intros app res fuel Hnd Hempty Hroot Hfuel.
  cbn [expand]. unfold childUIDs at 1. cbn [updateTreeDataSimple currentResult].
  cbn [String.eqb map]. rewrite Hroot.
  f_equal. f_equal. apply expand_node; auto. apply nodes_self.
Qed.

Lemma widget_shows_witness :
  expand (updateTreeDataSimple sampleApp scenarioResult) 4 "" =
  UidNode "" [pathTree (Root scenarioResult)].
Proof.
  apply (widget_shows_the_scanned_tree sampleApp scenarioResult 3).
  - exact scenario_paths_NoDup.
  - cbn. intuition discriminate.
  - reflexivity.
  - cbn. lia.
Defined.

(** *** Reporting the outcome of a scan *)

Lemma ScanDirectory_error_wrapped : forall P fs s ctx path err,
  ScanDirectory P fs s ctx path = Some (Err err) -> isCancellation err = false.
Proof.
  intros P fs s ctx path err H.
  destruct (ScannerSpec.ScanDirectory_cases P fs s ctx path)
    as [[_ Hr] | [(_ & c & _ & Hr) | [(_ & i & _ & _ & Hr)
         | (_ & i & _ & _ & [[r Hr] | (c & k & Hr & _)])]]];
    rewrite Hr in H; inversion H; reflexivity.
Qed.

Lemma scanFinished_error : forall app path err,
  isCancellation err = false ->
  scanFinished app path (Err err) =
  setStatus (showError app "Scan Error" err) "Scan failed".
Proof. intros app path [] H; try reflexivity; discriminate. Qed.

(** [scanDirectoryAsync] always comes to an end, in one of two ways. When
    [ScanDirectory] returned a result, the result (with its tree text
    rendered) becomes current, the status reads the count and the path, and
    the success dialog is shown. When it returned an error, whichever it
    is, the status reads [Scan failed] and the error dialog is shown. The
    statuses [Scan cancelled] and [Scan timed out (directory too large)]
    are never set: the errors of [ScanDirectory] wrap their cause and are
    compared unwrapped. *)
Theorem scan_outcome_is_reported :
  forall (P : Filepath.PathOps) (fs : Os.FileSystem) (ctx : Context)
         (app : FileTreeApp) (path : string),
    exists app',
      scanDirectoryAsync P fs ctx app path = Some app' /\
      ((exists res,
           ScanDirectory P fs (scanner app) ctx path = Some (Ok res) /\
           currentResult app' = Some (withTreeText res) /\
           statusLabel app' =
             "Scanned " +++ itoa (NodeCount res) +++ " items from: " +++ path /\
           dialogs app' = dialogs app ++ [Information "Success" msgScanSuccess]) \/
       (exists err,
           ScanDirectory P fs (scanner app) ctx path = Some (Err err) /\
           statusLabel app' = "Scan failed" /\
           dialogs app' = dialogs app ++ [ErrorDialog "Scan Error" err])) /\
      statusLabel app' <> "Scan cancelled" /\
      statusLabel app' <> "Scan timed out (directory too large)".
Proof.
  intros P fs ctx app path. unfold scanDirectoryAsync. cbn [setStatus scanner].
  destruct (ScanDirectoryRun_total P fs (scanner app) ctx path) as [[out clock] Hrun].
  assert (Hout : ScanDirectory P fs (scanner app) ctx path = Some out)
    by (unfold ScanDirectory; now rewrite Hrun).
  rewrite Hout. cbn [option_map]. eexists. split; [reflexivity|].
  destruct out as [res|err].
  - split; [left; exists res; repeat split; reflexivity|].
    cbn. split; intros H; congruence.
  - rewrite (scanFinished_error _ _ _ (ScanDirectory_error_wrapped _ _ _ _ _ _ Hout)).
    split; [right; exists err; repeat split; reflexivity|].
    cbn. split; intros H; congruence.
Qed.

Lemma run_cancelled : forall P fs s ctx path res clock k e,
  ScanDirectoryRun P fs s ctx path = Some (res, clock) ->
  (k < clock)%nat -> ctx k = Some e -> isCancellation e = true ->
  res = Err (ErrScan e).
Proof.
  intros P fs s ctx path res clock k e Hrun Hk Hctx Hcan. unfold ScanDirectoryRun in Hrun.
  destruct (path =? "")%string; [injection Hrun as <- <-; lia|].
  destruct (Os.Stat fs path) as [info|err]; [|injection Hrun as <- <-; lia].
  destruct (negb (Os.InfoIsDir info)); [injection Hrun as <- <-; lia|].
  destruct (scanNode _ _ _ _ _ _ _) as [r|] eqn:Hr; [|discriminate].
  apply scanNodeFuel_stops in Hr as (_ & _ & Hobs & _).
  assert (Hclock : clock = outClock r)
    by (destruct (outErr r); now injection Hrun as <- <-).
  subst clock.
  destruct (Hobs k e ltac:(lia) Hctx Hcan) as [_ Herr].
  rewrite Herr in Hrun. now injection Hrun as <-.
Qed.

(** When a poll made by the scan finds the context cancelled or past its
    deadline, the application ends with the status [Scan failed] and the
    error dialog for the wrapped error, as for any other failure; the
    result, the tree data and the clipboard of before stay as they were. *)
Theorem cancelled_scan_is_reported_as_failure :
  forall (P : Filepath.PathOps) (fs : Os.FileSystem) (ctx : Context)
         (app : FileTreeApp) (path : string) (res : result ScanResult)
         (clock k : nat) (e : error),
    ScanDirectoryRun P fs (scanner app) ctx path = Some (res, clock) ->
    (k < clock)%nat ->
    ctx k = Some e ->
    isCancellation e = true ->
    exists app',
      scanDirectoryAsync P fs ctx app path = Some app' /\
      statusLabel app' = "Scan failed" /\
      dialogs app' = dialogs app ++ [ErrorDialog "Scan Error" (ErrScan e)] /\
      currentResult app' = currentResult app /\
      treeData app' = treeData app /\
      clipboard app' = clipboard app.
Proof.
  intros P fs ctx app path res clock k e Hrun Hk Hctx Hcan.
  pose proof (run_cancelled _ _ _ _ _ _ _ _ _ Hrun Hk Hctx Hcan) as ->.
  unfold scanDirectoryAsync, ScanDirectory. cbn [setStatus scanner].
  rewrite Hrun. cbn. eexists. split; [reflexivity|]. repeat split.
Qed.

Lemma cancelled_scan_witness :
  exists app',
    scanDirectoryAsync Filepath.unix Fixtures.scenario (Fixtures.doneFrom 2 Canceled)
      sampleApp "root" = Some app' /\
    statusLabel app' = "Scan failed" /\
    dialogs app' = dialogs sampleApp ++ [ErrorDialog "Scan Error" (ErrScan Canceled)] /\
    currentResult app' = currentResult sampleApp /\
    treeData app' = treeData sampleApp /\
    clipboard app' = clipboard sampleApp.
Proof.
  apply (cancelled_scan_is_reported_as_failure Filepath.unix Fixtures.scenario
           (Fixtures.doneFrom 2 Canceled) sampleApp "root" (Err (ErrScan Canceled)) 3 2
           Canceled).
  - vm_compute. reflexivity.
  - lia.
  - reflexivity.
  - reflexivity.
Defined.

(** A scan that fails, for whatever reason, leaves the previous result
    in place: the widget unfolds the tree of before and the text that can
    be copied is the text of before. *)
Theorem failed_scan_keeps_previous_result :
  forall (P : Filepath.PathOps) (fs : Os.FileSystem) (ctx : Context)
         (app : FileTreeApp) (path : string) (err : error),
    ScanDirectory P fs (scanner app) ctx path = Some (Err err) ->
    exists app',
      scanDirectoryAsync P fs ctx app path = Some app' /\
      currentResult app' = currentResult app /\
      treeData app' = treeData app /\
      (forall uid, childUIDs app' uid = childUIDs app uid) /\
      (forall uid, isBranch app' uid = isBranch app uid) /\
      clipboard (handleCopyToClipboard app') = clipboard (handleCopyToClipboard app).
Proof.
  intros P fs ctx app path err Hout.
  unfold scanDirectoryAsync. cbn [setStatus scanner]. rewrite Hout. cbn [option_map].
  rewrite (scanFinished_error _ _ _ (ScanDirectory_error_wrapped _ _ _ _ _ _ Hout)).
  eexists. split; [reflexivity|]. repeat split.
  unfold handleCopyToClipboard. cbn [setStatus showError show currentResult clipboard].
  destruct (currentResult app) as [r|]; [|reflexivity].
  destruct (Clipboard.SetContent (clipboard app) (TreeText r)) as [clip [e|]]; reflexivity.
Qed.

Lemma failed_scan_witness :
  exists app',
    scanDirectoryAsync Filepath.unix Fixtures.scenario Fixtures.background
      (updateTreeDataSimple sampleApp scenarioResult) "" = Some app' /\
    currentResult app' = currentResult (updateTreeDataSimple sampleApp scenarioResult) /\
    treeData app' = treeData (updateTreeDataSimple sampleApp scenarioResult) /\
    (forall uid,
        childUIDs app' uid = childUIDs (updateTreeDataSimple sampleApp scenarioResult) uid) /\
    (forall uid,
        isBranch app' uid = isBranch (updateTreeDataSimple sampleApp scenarioResult) uid) /\
    clipboard (handleCopyToClipboard app') =
    clipboard (handleCopyToClipboard (updateTreeDataSimple sampleApp scenarioResult)).
Proof.
  apply (failed_scan_keeps_previous_result Filepath.unix Fixtures.scenario
           Fixtures.background (updateTreeDataSimple sampleApp scenarioResult) ""
           ErrEmptyPath).
  reflexivity.
Defined.

(** *** Copying *)



(** Copying writes the clipboard only when there is a current result and
    a clipboard, and then it writes the tree text of the result; without a
    result the [No Data] dialog is shown, without a clipboard the error
    dialog. In every case exactly one dialog is added and the result, the
    tree data and the status stay as they were. *)
Theorem handleCopyToClipboard_cases :
  forall app : FileTreeApp,
    currentResult (handleCopyToClipboard app) = currentResult app /\
    treeData (handleCopyToClipboard app) = treeData app /\
    statusLabel (handleCopyToClipboard app) = statusLabel app /\
    match currentResult app, Clipboard.clipboard (clipboard app) with
    | None, _ =>
        clipboard (handleCopyToClipboard app) = clipboard app /\
        dialogs (handleCopyToClipboard app) =
          dialogs app ++ [Information "No Data" msgNoData]
    | Some result, None =>
        clipboard (handleCopyToClipboard app) = clipboard app /\
        dialogs (handleCopyToClipboard app) =
          dialogs app ++ [ErrorDialog "Clipboard Error"
                            (OtherError "clipboard is not available")]
    | Some result, Some _ =>
        Clipboard.clipboard (clipboard (handleCopyToClipboard app)) =
          Some (TreeText result) /\
        dialogs (handleCopyToClipboard app) =
          dialogs app ++ [Information "Success" msgCopySuccess]
    end.
Proof.
  intros app. unfold handleCopyToClipboard, Clipboard.SetContent.
  destruct (currentResult app) as [result|] eqn:Hres.
  - destruct (Clipboard.clipboard (clipboard app)) as [old|] eqn:Hclip;
      cbn; rewrite ?Hres; repeat split.
  - cbn. rewrite ?Hres. repeat split.
Qed.

End UiProps.
